(** * The dev-time import-boundary checker and request pipeline of kit

    A shallow embedding of [packages/kit/src/vite/utils.js] and
    [packages/kit/src/vite/dev/index.js].

    JavaScript [Set<string>] is a [gset string], a [Record<string, _>] is a
    [gmap string _], arrays are lists.  Functions that recurse through a
    module graph (which may be cyclic) take a [fuel] argument and answer
    [None] when it runs out; the theorems show how much fuel is enough.
    Collaborators that live outside the repository (Vite, Rollup, Node's
    [fs] and [path], sirv, the render function) are parameters. *)

From Stdlib Require Import ZArith List String Ascii Bool Lia.
From stdpp Require Import base option list gmap sets strings relations.

Local Open Scope string_scope.

(* ===================================================================== *)
(** * Part I: definitions                                                 *)
(* ===================================================================== *)

(** ** Shared data *)

(** [import('types').ImportNode]: one element of an import chain. *)
Record ImportNode := { name : string; dynamic : bool }.

#[global] Instance ImportNode_eq_dec : EqDecision ImportNode.
Proof. solve_decision. Defined.

(** What a JavaScript function call can do: return or throw. *)
Inductive Completion (A : Type) :=
| Returned (a : A)
| Threw (message : string).
Arguments Returned {A} a.
Arguments Threw {A} message.

(** ** Rollup's module graph (build time) *)

Module Rollup.
(** The fields of [import('rollup').ModuleInfo] the checker reads. *)
Record ModuleInfo := {
  id : string;
  importedIds : list string;
  dynamicallyImportedIds : list string
}.

#[global] Instance ModuleInfo_eq_dec : EqDecision ModuleInfo.
Proof. solve_decision. Defined.
End Rollup.

(** The result of one call of a checker: the chain or [null], and the
    [seen] set as the call leaves it (the set is shared and mutated). *)
Definition Found : Type := option (list ImportNode) * gset string.

Section RollupChecker.
(** [normalizePath] comes from Vite. *)
Variable normalizePath : string -> string.
Variable node_getter : string -> option Rollup.ModuleInfo.
Variable illegal_imports : gset string.

(** One [for (const id of ...)] loop of [find_illegal_rollup_imports]:
    [child && find(child, ...)], leaving the loop at the first chain. *)
Fixpoint scan_rollup_imports
    (visit : Rollup.ModuleInfo -> gset string -> option Found)
    (ids : list string) (seen : gset string) : option Found :=
  match ids with
  | [] => Some (None, seen)
  | i :: rest =>
      match node_getter i with
      | None => scan_rollup_imports visit rest seen
      | Some child =>
          match visit child seen with
          | None => None
          | Some (Some chain, seen') => Some (Some chain, seen')
          | Some (None, seen') => scan_rollup_imports visit rest seen'
          end
      end
  end.

Fixpoint find_illegal_rollup_imports (fuel : nat)
    (node : Rollup.ModuleInfo) (dynamic : bool) (seen : gset string)
    : option Found :=
  match fuel with
  | O => None
  | S fuel' =>
      let name := normalizePath (Rollup.id node) in
      if decide (name ∈ seen) then Some (None, seen)
      else
        let seen := seen ∪ {[ name ]} in
        if decide (name ∈ illegal_imports)
        then Some (Some [ {| name := name; dynamic := dynamic |} ], seen)
        else
          let here := {| name := name; dynamic := dynamic |} in
          match scan_rollup_imports
                  (fun child => find_illegal_rollup_imports fuel' child false)
                  (Rollup.importedIds node) seen with
          | None => None
          | Some (Some chain, seen) => Some (Some (here :: chain), seen)
          | Some (None, seen) =>
              match scan_rollup_imports
                      (fun child => find_illegal_rollup_imports fuel' child true)
                      (Rollup.dynamicallyImportedIds node) seen with
              | None => None
              | Some (Some chain, seen) => Some (Some (here :: chain), seen)
              | Some (None, seen) => Some (None, seen ∖ {[ name ]})
              end
          end
  end.

End RollupChecker.

(** ** Formatting the chain: [format_illegal_import_chain] *)

(** [repeat(str, times)]: [new Array(times + 1).join(str)]. *)
Fixpoint repeat (str : string) (times : nat) : string :=
  match times with
  | O => ""
  | S n => str ++ repeat str n
  end.

(** [s.slice(n)] for [n] within the string. *)
Fixpoint slice_from (n : nat) (s : string) : string :=
  match n, s with
  | O, _ => s
  | S n', String _ rest => slice_from n' rest
  | S _, EmptyString => ""
  end.

Definition newline : string := String (ascii_of_nat 10) "".

Section Format.
(** Node's [path.join], [path.relative] and [process.cwd()]. *)
Variable path_join : string -> string -> string.
Variable path_relative : string -> string -> string.
Variable cwd : string.

(** The first [stack.map]: a name under [runtime/env] is shown with the
    [$env] alias ([replace] hits the prefix, the first occurrence), any
    other name relative to the working directory. *)
Definition rewrite_name (app : string) (file : ImportNode) : ImportNode :=
  if String.prefix app (name file)
  then {| name := "$env" ++ slice_from (String.length app) (name file);
          dynamic := dynamic file |}
  else {| name := path_relative cwd (name file); dynamic := dynamic file |}.

Definition pyramid_line (i : nat) (file : ImportNode) : string :=
  repeat " " (i * 2) ++ "- " ++ name file ++ " " ++
  (if dynamic file then "(imported by parent dynamically)" else "").

Definition format_illegal_import_chain
    (stack : list ImportNode) (out_dir : string) : string :=
  let app := path_join out_dir "runtime/env" in
  let stack := map (rewrite_name app) stack in
  let pyramid := String.concat newline (imap pyramid_line stack) in
  "Cannot import " ++
  match last stack with Some file => name file | None => "undefined" end ++
  " into client-side code:" ++ newline ++ pyramid.

(** [prevent_illegal_rollup_imports]: the traversal starts with an empty
    [seen] and [dynamic = false]; any chain is thrown as an [Error]. *)
Definition prevent_illegal_rollup_imports (fuel : nat)
    (normalizePath : string -> string)
    (node_getter : string -> option Rollup.ModuleInfo)
    (node : Rollup.ModuleInfo) (illegal_imports : gset string)
    (out_dir : string) : option (Completion unit) :=
  match find_illegal_rollup_imports normalizePath node_getter illegal_imports
          fuel node false ∅ with
  | None => None
  | Some (Some chain, _) =>
      Some (Threw (format_illegal_import_chain chain out_dir))
  | Some (None, _) => Some (Returned tt)
  end.

End Format.

(** ** Environment: [get_env] *)

Record Env := { public : gmap string string; private : gmap string string }.

(** [Object.fromEntries]: later entries overwrite earlier ones. *)
Definition fromEntries (entries : list (string * string)) : gmap string string :=
  foldl (fun o kv => <[ kv.1 := kv.2 ]> o) ∅ entries.

(** [Object.entries] of a record: its own key-value pairs. *)
Definition entries_of (o : gmap string string) : list (string * string) :=
  map_to_list o.

(** [k.startsWith(prefix)]. *)
Definition startsWith (k prefix : string) : bool := String.prefix prefix k.

Section GetEnv.
(** Vite's [loadEnv(mode, envDir, prefixes)] and [process.cwd()]. *)
Variable loadEnv : string -> string -> string -> gmap string string.
Variable cwd : string.

Definition get_env (mode prefix : string) : Env :=
  let entries := entries_of (loadEnv mode cwd "") in
  {| public := fromEntries (List.filter (fun kv => startsWith kv.1 prefix) entries);
     private := fromEntries (List.filter (fun kv => negb (startsWith kv.1 prefix)) entries) |}.

End GetEnv.

(** ** Vite's module graph (dev time) *)

Module Vite.
(** A [ModuleNode] holds its imports as object references; the graph may
    be cyclic, so a reference is an address into the module graph's store. *)
Definition ref := nat.

Record ModuleNode := {
  id : option string;          (* [string | null] *)
  url : string;
  file : option string;        (* [string | null] *)
  importedModules : list ref
}.
End Vite.

(** [get_module_types]: the extensions whose imports are analysed. *)
Definition get_module_types (config_module_types : list string) : gset string :=
  list_to_set
    ([".ts"; ".js"; ".svelte"; ".mts"; ".mjs"; ".cts"; ".cjs"; ".svelte.md";
      ".svx"; ".md"] ++ config_module_types).

Section ViteChecker.
Variable normalizePath : string -> string.
(** Node's [path.extname]. *)
Variable extname : string -> string.
(** The store of the live module graph: what a reference points to. *)
Variable deref : Vite.ref -> option Vite.ModuleNode.
Variable illegal_imports : gset string.
Variable module_types : gset string.

(** The [for (const child of node.importedModules)] loop. *)
Fixpoint scan_vite_imports
    (visit : Vite.ModuleNode -> gset string -> option Found)
    (children : list Vite.ref) (seen : gset string) : option Found :=
  match children with
  | [] => Some (None, seen)
  | r :: rest =>
      match deref r with
      | None => scan_vite_imports visit rest seen
      | Some child =>
          match visit child seen with
          | None => None
          | Some (Some chain, seen') => Some (Some chain, seen')
          | Some (None, seen') => scan_vite_imports visit rest seen'
          end
      end
  end.

Fixpoint find_illegal_vite_imports (fuel : nat)
    (node : Vite.ModuleNode) (seen : gset string) : option Found :=
  match fuel with
  | O => None
  | S fuel' =>
      match Vite.id node with
      | None => Some (None, seen)
      | Some "" => Some (None, seen)
      | Some node_id =>
          let name := normalizePath node_id in
          if bool_decide (name ∈ seen)
             || negb (bool_decide (extname name ∈ module_types))
          then Some (None, seen)
          else
            let seen := seen ∪ {[ name ]} in
            if negb (String.eqb name "") && bool_decide (name ∈ illegal_imports)
            then Some (Some [ {| name := name; dynamic := false |} ], seen)
            else
              match scan_vite_imports (find_illegal_vite_imports fuel')
                      (Vite.importedModules node) seen with
              | None => None
              | Some (Some chain, seen) =>
                  Some (Some ({| name := name; dynamic := false |} :: chain), seen)
              | Some (None, seen) => Some (None, seen ∖ {[ name ]})
              end
      end
  end.

End ViteChecker.

Section PreventVite.
Variable path_join : string -> string -> string.
Variable path_relative : string -> string -> string.
Variable cwd : string.
Variable normalizePath : string -> string.
Variable extname : string -> string.
Variable deref : Vite.ref -> option Vite.ModuleNode.

Definition prevent_illegal_vite_imports (fuel : nat)
    (node : Vite.ModuleNode) (illegal_imports : gset string)
    (module_types : list string) (out_dir : string)
    : option (Completion unit) :=
  match find_illegal_vite_imports normalizePath extname deref illegal_imports
          (get_module_types module_types) fuel node ∅ with
  | None => None
  | Some (Some chain, _) =>
      Some (Threw (format_illegal_import_chain path_join path_relative cwd
                     chain out_dir))
  | Some (None, _) => Some (Returned tt)
  end.

End PreventVite.

(** ** JavaScript values, as far as the dev server looks at them *)

Inductive JSValue :=
| JSUndefined
| JSNull
| JSBool (b : bool)
| JSString (s : string)
| JSFunction (label : string).   (* a callable, told apart by a label *)

(** [ToBoolean]. *)
Definition truthy (v : JSValue) : bool :=
  match v with
  | JSUndefined | JSNull => false
  | JSBool b => b
  | JSString s => negb (String.eqb s "")
  | JSFunction _ => true
  end.

(** [o.k]: a property that is not there reads as [undefined]. *)
Definition get (o : gmap string JSValue) (k : string) : JSValue :=
  default JSUndefined (o !! k).

(** [a || b]. *)
Definition or_else (a b : JSValue) : JSValue := if truthy a then a else b.

(** ** The dev server: [dev/index.js] *)

(** [style_pattern]: [/\.(css|less|sass|scss|styl|stylus|pcss|postcss)$/]. *)
Definition style_extensions : list string :=
  ["css"; "less"; "sass"; "scss"; "styl"; "stylus"; "pcss"; "postcss"].

Definition endsWith (s suffix : string) : bool :=
  let n := String.length s in
  let k := String.length suffix in
  (k <=? n)%nat && String.eqb (slice_from (n - k) s) suffix.

(** [style_pattern.test(x)]; [test] turns a [null] into the text "null". *)
Definition style_pattern_test (x : option string) : bool :=
  let s := default "null" x in
  existsb (fun ext => endsWith s ("." ++ ext)) style_extensions.

(** [URLSearchParams.has] and [URLSearchParams.get] (the first value). *)
Definition query_has (query : list (string * string)) (k : string) : bool :=
  existsb (fun kv => String.eqb kv.1 k) query.

Definition query_get (query : list (string * string)) (k : string) : option string :=
  snd <$> List.find (fun kv => String.eqb kv.1 k) query.

Section InlineStyles.
(** [vite.ssrLoadModule] and the query of [new URL(url, 'http://localhost/')]. *)
Variable ssrLoadModule : string -> Completion (gmap string JSValue).
Variable searchParams : string -> list (string * string).

Definition is_style (dep : Vite.ModuleNode) : bool :=
  let query := searchParams (Vite.url dep) in
  style_pattern_test (Vite.file dep)
  || (query_has query "svelte"
      && bool_decide (query_get query "type" = Some "style")).

(** The body of [for (const dep of deps)], with its [try]/[catch]. *)
Definition inline_style_step
    (styles : gmap string JSValue) (dep : Vite.ModuleNode) : gmap string JSValue :=
  if is_style dep then
    match ssrLoadModule (Vite.url dep) with
    | Returned mod_ => <[ Vite.url dep := get mod_ "default" ]> styles
    | Threw _ => styles
    end
  else styles.

(** [inline_styles], from the set [deps] that [find_deps] has filled, in
    the set's insertion order. *)
Definition inline_styles (deps : list Vite.ModuleNode) : gmap string JSValue :=
  foldl inline_style_step ∅ deps.

(** [recorded deps u v]: some collected dependency with URL [u] is a style
    and loads, and [v] is the default export of what was loaded. *)
Definition recorded (deps : list Vite.ModuleNode) (u : string) (v : JSValue) : Prop :=
  ∃ dep mod_,
    dep ∈ deps ∧ Vite.url dep = u
    ∧ is_style dep = true
    ∧ ssrLoadModule u = Returned mod_
    ∧ v = get mod_ "default".

(** Whether loading the module of a dependency succeeds. *)
Definition loads (dep : Vite.ModuleNode) : bool :=
  match ssrLoadModule (Vite.url dep) with
  | Returned _ => true
  | Threw _ => false
  end.

End InlineStyles.

(** The same loop with the record as JavaScript keeps it: the entries of
    [styles] in the order in which their keys were first assigned, which
    is the order [Object.entries] shows.  Assigning to a key the record
    already has replaces the value where it stands.  (The keys are module
    URLs; none of them is an array index, which JavaScript would list
    first.) *)
Fixpoint assign_property (styles : list (string * JSValue))
    (key : string) (value : JSValue) : list (string * JSValue) :=
  match styles with
  | [] => [(key, value)]
  | (k, v) :: rest =>
      if String.eqb k key then (key, value) :: rest
      else (k, v) :: assign_property rest key value
  end.

Section InlineStylesEntries.
Variable ssrLoadModule : string -> Completion (gmap string JSValue).
Variable searchParams : string -> list (string * string).

Definition inline_style_entry_step
    (styles : list (string * JSValue)) (dep : Vite.ModuleNode)
    : list (string * JSValue) :=
  if is_style searchParams dep then
    match ssrLoadModule (Vite.url dep) with
    | Returned mod_ => assign_property styles (Vite.url dep) (get mod_ "default")
    | Threw _ => styles
    end
  else styles.

Definition inline_styles_entries (deps : list Vite.ModuleNode)
    : list (string * JSValue) :=
  foldl inline_style_entry_step [] deps.

End InlineStylesEntries.

(** What a middleware does to its collaborators, in order. *)
Inductive Effect :=
| AssetServer (url : string)          (* [req.url = url; asset_server(req, res)] *)
| Next                                (* [next()] *)
| ServeStatic                         (* [serve_static_middleware.handle(req, res, ..)] *)
| SetPrivateEnv (env : gmap string string)
| SetPublicEnv (env : gmap string string)
| SetPaths (base assets : string)
| SetResponse (status : Z) (body : string)   (* [setResponse(res, rendered)] *)
| End (statusCode : Z) (body : option string). (* [res.statusCode = ..; res.end(..)] *)

(** A handler body: the effects so far, and how the body completed. *)
Definition Handler (A : Type) : Type := list Effect * Completion A.

Definition hret {A} (a : A) : Handler A := ([], Returned a).
Definition hbind {A B} (m : Handler A) (k : A -> Handler B) : Handler B :=
  match m with
  | (t, Returned a) => let '(t', r) := k a in ((t ++ t')%list, r)
  | (t, Threw e) => (t, Threw e)
  end.
Definition emit (e : Effect) : Handler unit := ([e], Returned tt).
Definition lift {A} (c : Completion A) : Handler A := ([], c).
Definition throw {A} (message : string) : Handler A := ([], Threw message).

Notation "'let!' x ':=' m 'in' k" := (hbind m (fun x => k))
  (at level 10, x name, m at level 100, k at level 200).
Notation "'run!' m 'in' k" := (hbind m (fun _ => k))
  (at level 10, m at level 100, k at level 200).

(** [http.IncomingMessage], as far as it is read. *)
Record IncomingMessage := {
  url : string;
  authority : option string;     (* [req.headers[':authority']] *)
  host : option string           (* [req.headers.host] *)
}.

(** The [Response] of the render function. *)
Record Rendered := { status : Z; body : string }.

(** The parts of the two configs the middlewares read. *)
Record Config := {
  paths_base : string;           (* [svelte_config.kit.paths.base] *)
  paths_assets : string;         (* [svelte_config.kit.paths.assets] *)
  files_assets : string;         (* [svelte_config.kit.files.assets] *)
  files_hooks : string;          (* [svelte_config.kit.files.hooks] *)
  outDir : string;               (* [svelte_config.kit.outDir] *)
  publicPrefix : string;         (* [svelte_config.kit.env.publicPrefix] *)
  mode : string;                 (* [vite_config.mode] *)
  https : bool;                  (* [vite.config.server.https] *)
  fs_strict : bool;              (* [vite_config.server.fs.strict] *)
  fs_allow : list string         (* [vite_config.server.fs.allow] *)
}.

(** Node's [fs], as far as it is asked. *)
Record FileSystem := {
  existsSync : string -> bool;
  isDirectory : string -> bool;                      (* [statSync(f).isDirectory()] *)
  readdirSync : string -> Completion (list string)
}.

(** What the render function is given, as far as the model follows it. *)
Record RenderOptions := {
  hooks : gmap string JSValue;
  public_env : gmap string string;
  paths : string * string
}.

Section Dev.
Variable config : Config.
Variable fs : FileSystem.
(** [SVELTE_KIT_ASSETS] of [core/constants.js]. *)
Variable SVELTE_KIT_ASSETS : string.
(** [decodeURI(new URL(x).pathname)] and [encodeURI]. *)
Variable decode_pathname : string -> Completion string.
Variable encodeURI : string -> string.
(** Node's [path.dirname] and [path.basename]; [resolve_path f] is
    [posixify(path.resolve(f))]. *)
Variable path_dirname : string -> string.
Variable path_basename : string -> string.
Variable resolve_path : string -> string.
(** The [stack] of the [Error] a thrown value is coerced to, and
    [vite.ssrRewriteStacktrace]. *)
Variable error_stack : string -> option string.
Variable ssrRewriteStacktrace : string -> string.
Variable ssrLoadModule : string -> Completion (gmap string JSValue).
(** [resolve_entry] of [utils.js], by its result. *)
Variable resolve_entry : string -> option string.
Variable loadEnv : string -> string -> string -> gmap string string.
Variable cwd : string.
(** The URL prefix of the runtime modules and the URL of the generated
    root component. *)
Variable runtime_base : string.
Variable root_url : string.
(** [getRequest] of [node/index.js]: the request, or an error with its
    [status] and [reason]. *)
Variable KitRequest : Type.
Variable getRequest : string -> IncomingMessage -> KitRequest + (option Z * option string).
Variable load_template : Completion string.
(** The render function. *)
Variable respond : KitRequest -> RenderOptions -> Completion Rendered.
(** Vite's static middleware: whether it serves the request itself;
    when it does not, it calls the [next] it was given. *)
Variable serve_static_hit : IncomingMessage -> bool.

Definition fix_stack_trace (error : string) : option string :=
  match error_stack error with
  | Some stack => if String.eqb stack "" then Some "" else Some (ssrRewriteStacktrace stack)
  | None => None
  end.

(** [try { ... } catch (e) { res.statusCode = 500; res.end(...) }]. *)
Definition try_catch (m : Handler unit) : list Effect :=
  match m with
  | (t, Returned _) => t
  | (t, Threw e) => (t ++ [End 500 (fix_stack_trace e)])%list
  end.

(** [`${https ? 'https' : 'http'}://${authority || host}`]. *)
Definition origin (req : IncomingMessage) : string :=
  (if https config then "https" else "http") ++ "://" ++
  default "undefined"
    (match authority req with
     | Some a => if String.eqb a "" then host req else Some a
     | None => host req
     end).

Definition assets : string :=
  if String.eqb (paths_assets config) "" then paths_base config
  else SVELTE_KIT_ASSETS.

Fixpoint has_correct_case (fuel : nat) (file assets : string)
    : option (Completion bool) :=
  match fuel with
  | O => None
  | S fuel' =>
      if String.eqb file assets then Some (Returned true)
      else
        let parent := path_dirname file in
        match readdirSync fs parent with
        | Threw e => Some (Threw e)
        | Returned names =>
            if bool_decide (path_basename file ∈ names)
            then has_correct_case fuel' parent assets
            else Some (Returned false)
        end
  end.

(** The first middleware: assets. *)
Definition asset_middleware (fuel : nat) (req : IncomingMessage)
    : option (list Effect) :=
  match decode_pathname (origin req ++ url req) with
  | Threw e => Some (try_catch (throw e))
  | Returned decoded =>
      if startsWith decoded assets then
        let pathname := slice_from (String.length assets) decoded in
        let file := files_assets config ++ pathname in
        if existsSync fs file && negb (isDirectory fs file) then
          match has_correct_case fuel file (files_assets config) with
          | None => None
          | Some correct =>
              Some (try_catch
                      (let! ok := lift correct in
                       if (ok : bool) then emit (AssetServer (encodeURI pathname))
                       else emit Next))
          end
        else Some [Next]
      else Some [Next]
  end.

(** [not_found(res, message)]. *)
Definition not_found (message : string) : Handler unit :=
  emit (End 404 (Some message)).

(** The [hooks] object handed to the render function. *)
Definition make_hooks (user_hooks : gmap string JSValue) : gmap string JSValue :=
  let handle :=
    or_else (get user_hooks "handle")
            (JSFunction "({ event, resolve }) => resolve(event)") in
  <[ "externalFetch" := or_else (get user_hooks "externalFetch") (JSFunction "fetch") ]>
  (<[ "handleError" := or_else (get user_hooks "handleError")
                               (JSFunction "({ error }) => console.error(...)") ]>
  (<[ "handle" := handle ]>
  (<[ "getSession" := or_else (get user_hooks "getSession") (JSFunction "() => ({})") ]>
   ∅))).

(** [serve_static_middleware.handle(req, res, next)]: the responder is
    called; when it has no file for the request, the [next] it was given
    runs.  What it does about a miss when it was given no [next] is Vite's
    affair and leaves no further effect here. *)
Definition serve_static_handle (req : IncomingMessage)
    (next : option (Handler unit)) : Handler unit :=
  run! emit ServeStatic in
  match next with
  | Some callback => if serve_static_hit req then hret tt else callback
  | None => hret tt
  end.

(** Lines 394-401: what is done with the response of the render function. *)
Definition send_rendered (req : IncomingMessage) (rendered : Rendered)
    : Handler unit :=
  if (status rendered =? 404)%Z then
    serve_static_handle req
      (Some (emit (SetResponse (status rendered) (body rendered))))
  else emit (SetResponse (status rendered) (body rendered)).

(** The checks on removed and renamed hooks, lines 289-299. *)
Definition check_legacy_hooks (hooks : gmap string JSValue) : Handler unit :=
  if truthy (get hooks "getContext") then
    throw "The getContext hook has been removed. See https://kit.svelte.dev/docs/hooks"
  else if truthy (get hooks "serverFetch") then
    throw "The serverFetch hook has been renamed to externalFetch."
  else hret tt.

(** The body of the request middleware, inside its [try]. *)
Definition request_handler (req : IncomingMessage) : Handler unit :=
  let base := origin req in
  let! decoded := lift (decode_pathname (base ++ url req)) in
  let file := resolve_path (slice_from 1 decoded) in
  let is_file := existsSync fs file && negb (isDirectory fs file) in
  let allowed :=
    negb (fs_strict config)
    || existsb (fun dir => startsWith file dir) (fs_allow config) in
  if is_file && allowed then
    serve_static_handle req None
  else if negb (startsWith decoded (paths_base config)) then
    not_found ("Not found (did you mean " ++ paths_base config ++ url req ++ "?)")
  else
    let! _ := lift (ssrLoadModule (runtime_base ++ "/env-private.js")) in
    let! _ := lift (ssrLoadModule (runtime_base ++ "/env-public.js")) in
    let env := get_env loadEnv cwd (mode config) (publicPrefix config) in
    run! emit (SetPrivateEnv (private env)) in
    run! emit (SetPublicEnv (public env)) in
    let! user_hooks :=
      match resolve_entry (files_hooks config) with
      | Some _ => lift (ssrLoadModule ("/" ++ files_hooks config))
      | None => hret ∅
      end in
    let hooks := make_hooks user_hooks in
    run! check_legacy_hooks hooks in
    let! _ := lift (ssrLoadModule root_url) in
    let! _ := lift (ssrLoadModule (runtime_base ++ "/paths.js")) in
    run! emit (SetPaths (paths_base config) assets) in
    match getRequest base req with
    | inr (err_status, err_reason) =>
        emit (End (match err_status with
                   | Some s => if (s =? 0)%Z then 400%Z else s
                   | None => 400%Z
                   end)
                  (Some (match err_reason with
                         | Some r => if String.eqb r "" then "Invalid request body" else r
                         | None => "Invalid request body"
                         end)))
    | inl request =>
        let! _ := lift load_template in
        let! rendered :=
          lift (respond request
                  {| hooks := hooks; public_env := public env;
                     paths := (paths_base config, assets) |}) in
        send_rendered req rendered
    end.

(** The second middleware: the request dispatcher. *)
Definition request_middleware (req : IncomingMessage) : list Effect :=
  try_catch (request_handler req).

End Dev.

(** ** The module graph as a graph: edges, reachability and chains *)

Section RollupGraph.
Variable normalizePath : string -> string.
Variable node_getter : string -> option Rollup.ModuleInfo.
Variable illegal_imports : gset string.

(** The canonical id of a node, the key of [seen] and of the forbidden set. *)
Definition node_name (n : Rollup.ModuleInfo) : string :=
  normalizePath (Rollup.id n).

Definition imports (dyn : bool) (n : Rollup.ModuleInfo) : list string :=
  if dyn then Rollup.dynamicallyImportedIds n else Rollup.importedIds n.

(** [n] imports [c], statically ([dyn = false]) or dynamically: one of the
    ids [n] lists resolves to [c]. *)
Definition edge (dyn : bool) (n c : Rollup.ModuleInfo) : Prop :=
  ∃ i, i ∈ imports dyn n ∧ node_getter i = Some c.

Definition import_edge (n c : Rollup.ModuleInfo) : Prop := ∃ dyn, edge dyn n c.

(** Some forbidden module is reachable from [root] over import edges. *)
Definition reaches_illegal (root : Rollup.ModuleInfo) : Prop :=
  ∃ m, rtc import_edge root m ∧ node_name m ∈ illegal_imports.

(** [import_chain n d chain]: [chain] names a path of import edges from [n]
    down to a forbidden module; the first element carries [d], every later
    element carries the kind of the edge that leads into it. *)
Inductive import_chain : Rollup.ModuleInfo -> bool -> list ImportNode -> Prop :=
| chain_end n d :
    node_name n ∈ illegal_imports ->
    import_chain n d [ {| name := node_name n; dynamic := d |} ]
| chain_step n d dyn c rest :
    edge dyn n c ->
    import_chain c dyn rest ->
    import_chain n d ({| name := node_name n; dynamic := d |} :: rest).

(** A forbidden module is reachable from [n] along a path none of whose
    modules is in [seen]. *)
Inductive reaches_avoiding (seen : gset string) : Rollup.ModuleInfo -> Prop :=
| avoid_here n :
    node_name n ∉ seen -> node_name n ∈ illegal_imports ->
    reaches_avoiding seen n
| avoid_step n c :
    node_name n ∉ seen -> import_edge n c -> reaches_avoiding seen c ->
    reaches_avoiding seen n.

(** A finite module graph: a list of modules that holds every module its
    members import, and in which a canonical id names one module. *)
Definition closed (nodes : list Rollup.ModuleInfo) : Prop :=
  Forall (fun n =>
    Forall (fun i => from_option (fun c => c ∈ nodes) True (node_getter i))
           (Rollup.importedIds n ++ Rollup.dynamicallyImportedIds n)%list)
    nodes.

Definition canonical (nodes : list Rollup.ModuleInfo) : Prop :=
  NoDup (node_name <$> nodes).

Definition module_graph (nodes : list Rollup.ModuleInfo) : Prop :=
  closed nodes ∧ canonical nodes.

#[global] Instance module_graph_dec nodes : Decision (module_graph nodes).
Proof.
  apply and_dec; [|apply NoDup_dec].
  apply Forall_dec; intros n. apply Forall_dec; intros i.
  destruct (node_getter i); simpl; apply _.
Defined.

(** The canonical ids of a graph. *)
Definition graph_names (nodes : list Rollup.ModuleInfo) : gset string :=
  list_to_set (node_name <$> nodes).

(** A visit that answers [null] hands [seen] back as it got it. *)
Definition restores (visit : Rollup.ModuleInfo -> gset string -> option Found) : Prop :=
  ∀ c s s', visit c s = Some (None, s') -> s' = s.

(** The chain of a path all of whose edges are static. *)
Definition static_chain (path : list Rollup.ModuleInfo) : list ImportNode :=
  (fun n => {| name := node_name n; dynamic := false |}) <$> path.

End RollupGraph.

(** ** Example module graphs *)

(** A module graph given by the list of its modules: [getModuleInfo]
    looks an id up. *)
Definition getModuleInfo (modules : list Rollup.ModuleInfo) (i : string)
    : option Rollup.ModuleInfo :=
  List.find (fun n => String.eqb (Rollup.id n) i) modules.

Definition module_ (i : string) (statics dynamics : list string) : Rollup.ModuleInfo :=
  {| Rollup.id := i; Rollup.importedIds := statics;
     Rollup.dynamicallyImportedIds := dynamics |}.

(** Ids that are normalized already. *)
Definition normalized (i : string) : string := i.

(** [A -> B -> C], all static. *)
Definition static_line : list Rollup.ModuleInfo :=
  [ module_ "A" ["B"] []; module_ "B" ["C"] []; module_ "C" [] [] ].

(** [A -> B -> C], all static, with [B] importing [A] back. *)
Definition static_loop : list Rollup.ModuleInfo :=
  [ module_ "A" ["B"] []; module_ "B" ["A"; "C"] []; module_ "C" [] [] ].

(** [A -> B], and [B] imports [C] dynamically. *)
Definition dynamic_tail : list Rollup.ModuleInfo :=
  [ module_ "A" ["B"] []; module_ "B" [] ["C"]; module_ "C" [] [] ].

(** [A] and [B] import each other; [B] also imports [C] dynamically. *)
Definition with_cycle : list Rollup.ModuleInfo :=
  [ module_ "A" ["B"] []; module_ "B" ["A"] ["C"]; module_ "C" [] [] ].

(** [R] imports [D] dynamically and [S] statically; [D] imports [F2],
    [S] imports [F1]. *)
Definition both_ways : list Rollup.ModuleInfo :=
  [ module_ "R" ["S"] ["D"]; module_ "S" ["F1"] []; module_ "D" ["F2"] [];
    module_ "F1" [] []; module_ "F2" [] [] ].

(** A live graph of two modules: [/src/page.js] imports
    [/src/secret.js]. *)
Definition page_node : Vite.ModuleNode :=
  {| Vite.id := Some "/src/page.js"; Vite.url := "/src/page.js";
     Vite.file := Some "/src/page.js"; Vite.importedModules := [1] |}.

Definition secret_node : Vite.ModuleNode :=
  {| Vite.id := Some "/src/secret.js"; Vite.url := "/src/secret.js";
     Vite.file := Some "/src/secret.js"; Vite.importedModules := [0] |}.

Definition live_graph (r : Vite.ref) : option Vite.ModuleNode :=
  [page_node; secret_node] !! r.

(** A stylesheet that loads, a Svelte style block whose load fails, and a
    script. *)
Definition css_dep : Vite.ModuleNode :=
  {| Vite.id := Some "/src/app.css"; Vite.url := "/src/app.css";
     Vite.file := Some "/src/app.css"; Vite.importedModules := [] |}.

Definition svelte_style_dep : Vite.ModuleNode :=
  {| Vite.id := Some "/src/Nav.svelte?svelte&type=style&lang.css";
     Vite.url := "/src/Nav.svelte?svelte&type=style&lang.css";
     Vite.file := Some "/src/Nav.svelte"; Vite.importedModules := [] |}.

Definition load_example (u : string) : Completion (gmap string JSValue) :=
  if String.eqb u "/src/app.css"
  then Returned {[ "default" := JSString "body{margin:0}" ]}
  else Threw "failed to load".

(** A loader for which every module loads. *)
Definition load_any (u : string) : Completion (gmap string JSValue) :=
  Returned {[ "default" := JSString ("/* " ++ u ++ " */") ]}.

Definition query_example (u : string) : list (string * string) :=
  if String.eqb u "/src/Nav.svelte?svelte&type=style&lang.css"
  then [("svelte", ""); ("type", "style"); ("lang.css", "")]
  else [].

(** A stand-in for Node's [path.extname]: the text from the last dot on. *)
Fixpoint last_dot_suffix (s : string) : option string :=
  match s with
  | EmptyString => None
  | String c rest =>
      match last_dot_suffix rest with
      | Some e => Some e
      | None => if Ascii.eqb c "."%char then Some s else None
      end
  end.

Definition extname_of (s : string) : string := default "" (last_dot_suffix s).

(** Stand-ins for Node's [path.join] and [path.relative]. *)
Definition join_with_slash (a b : string) : string := a ++ "/" ++ b.
Definition relative_as_is (from to : string) : string := to.

(** ** Paths on disk: what [has_correct_case] walks *)

Section Ancestors.
Variable fs : FileSystem.
Variable path_dirname : string -> string.
Variable path_basename : string -> string.

(** The [k]-th ancestor of [file]: [path.dirname] applied [k] times. *)
Fixpoint ancestor (k : nat) (file : string) : string :=
  match k with
  | O => file
  | S k' => ancestor k' (path_dirname file)
  end.

(** The directory that holds the [j]-th ancestor of [file] lists it under
    the very name it was asked by. *)
Definition listed (file : string) (j : nat) : Prop :=
  ∃ names, readdirSync fs (ancestor (S j) file) = Returned names
           ∧ path_basename (ancestor j file) ∈ names.

End Ancestors.

(** ** An example dev server *)

(** Stand-ins for Node's [path.dirname] and [path.basename]: the text
    before and after the last slash. *)
Fixpoint split_last_slash (s : string) : option (string * string) :=
  match s with
  | EmptyString => None
  | String c rest =>
      match split_last_slash rest with
      | Some (d, b) => Some (String c d, b)
      | None => if Ascii.eqb c "/"%char then Some ("", rest) else None
      end
  end.

Definition dirname_of (s : string) : string :=
  match split_last_slash s with
  | Some (d, _) => if String.eqb d "" then "/" else d
  | None => "."
  end.

Definition basename_of (s : string) : string :=
  match split_last_slash s with
  | Some (_, b) => b
  | None => s
  end.

Definition example_config : Config :=
  {| paths_base := ""; paths_assets := ""; files_assets := "/app/static";
     files_hooks := "src/hooks"; outDir := "/app/.svelte-kit";
     publicPrefix := "PUBLIC_"; mode := "development"; https := false;
     fs_strict := true; fs_allow := ["/app"] |}.

(** A disk that does not tell upper from lower case: [/app/static] holds one
    file, listed as [X.png] and found under [x.png] as well. *)
Definition example_fs : FileSystem :=
  {| existsSync f :=
       bool_decide (f ∈ ["/app/static"; "/app/static/X.png"; "/app/static/x.png"]);
     isDirectory f := String.eqb f "/app/static";
     readdirSync d :=
       if String.eqb d "/app/static" then Returned ["X.png"]
       else Threw "ENOENT: no such file or directory" |}.

Definition example_origin : string := "http://localhost:5173".

(** The pathname of a URL on [example_origin] that needs no decoding. *)
Definition pathname_of (full : string) : Completion string :=
  Returned (slice_from (String.length example_origin) full).

Definition request_for (u : string) : IncomingMessage :=
  {| url := u; authority := None; host := Some "localhost:5173" |}.

(** A hooks module that still exports the removed [getContext]. *)
Definition legacy_hooks : gmap string JSValue :=
  {[ "getContext" := JSFunction "getContext" ]}.

Definition example_modules (u : string) : Completion (gmap string JSValue) :=
  if String.eqb u "/src/hooks" then Returned legacy_hooks else Returned ∅.

Definition example_env (mode envDir prefixes : string) : gmap string string :=
  {[ "PUBLIC_API" := "https://api.example"; "SECRET" := "hunter2" ]}.

(** A render function that knows one page. *)
Definition example_respond (request : string) (options : RenderOptions)
    : Completion Rendered :=
  if String.eqb request "/about"
  then Returned {| status := 200; body := "<h1>about</h1>" |}
  else Returned {| status := 404; body := "Not found" |}.

Definition example_assets (fuel : nat) (req : IncomingMessage) : option (list Effect) :=
  asset_middleware example_config example_fs "/_svelte_kit_assets" pathname_of
    (fun u => u) dirname_of basename_of (fun e => Some e) (fun st => st) fuel req.

Definition example_dispatch (static_hit : bool) (req : IncomingMessage) : list Effect :=
  request_middleware example_config example_fs "/_svelte_kit_assets" pathname_of
    (fun f => "/app/" ++ f) (fun e => Some e) (fun st => st)
    example_modules (fun _ => Some "src/hooks.js") example_env "/app"
    "/@fs/app/node_modules/@sveltejs/kit/src/runtime"
    "/.svelte-kit/generated/root.svelte"
    string (fun _ req => inl (url req)) (Returned "%sveltekit.body%")
    example_respond (fun _ => static_hit) req.

(** ** The live module graph as a graph *)

#[global] Instance ViteModuleNode_eq_dec : EqDecision Vite.ModuleNode.
Proof. solve_decision. Defined.

Section ViteGraph.
Variable normalizePath : string -> string.
Variable extname : string -> string.
Variable deref : Vite.ref -> option Vite.ModuleNode.
Variable illegal_imports : gset string.
Variable module_types : gset string.

(** The canonical id of a live module; a module whose [id] is [null] or
    empty has none. *)
Definition vite_name (n : Vite.ModuleNode) : option string :=
  match Vite.id n with
  | None => None
  | Some EmptyString => None
  | Some i => Some (normalizePath i)
  end.

(** [n] holds a reference to [c] among its imported modules. *)
Definition vite_edge (n c : Vite.ModuleNode) : Prop :=
  ∃ r, r ∈ Vite.importedModules n ∧ deref r = Some c.

(** [vite_chain n chain]: [chain] names a path of imported modules from [n]
    to a forbidden one; every module on it has a canonical id with an
    analysed extension. *)
Inductive vite_chain : Vite.ModuleNode -> list ImportNode -> Prop :=
| vite_chain_end n x :
    vite_name n = Some x -> extname x ∈ module_types ->
    x ≠ "" -> x ∈ illegal_imports ->
    vite_chain n [ {| name := x; dynamic := false |} ]
| vite_chain_step n x c rest :
    vite_name n = Some x -> extname x ∈ module_types ->
    vite_edge n c -> vite_chain c rest ->
    vite_chain n ({| name := x; dynamic := false |} :: rest).

(** A forbidden module is reachable from [n] through analysed modules none
    of which is in [seen]. *)
Inductive vite_reaches_avoiding (seen : gset string) : Vite.ModuleNode -> Prop :=
| vite_avoid_here n x :
    vite_name n = Some x -> extname x ∈ module_types -> x ∉ seen ->
    x ≠ "" -> x ∈ illegal_imports ->
    vite_reaches_avoiding seen n
| vite_avoid_step n x c :
    vite_name n = Some x -> extname x ∈ module_types -> x ∉ seen ->
    vite_edge n c -> vite_reaches_avoiding seen c ->
    vite_reaches_avoiding seen n.

(** A finite live graph: a list of modules that holds every module its
    members refer to, and in which a canonical id names one module. *)
Definition vite_graph (nodes : list Vite.ModuleNode) : Prop :=
  Forall (fun n =>
    Forall (fun r => from_option (fun c => c ∈ nodes) True (deref r))
           (Vite.importedModules n)) nodes
  ∧ NoDup (omap vite_name nodes).

#[global] Instance vite_graph_dec nodes : Decision (vite_graph nodes).
Proof.
  apply and_dec; [|apply NoDup_dec].
  apply Forall_dec; intros n. apply Forall_dec; intros r.
  destruct (deref r); simpl; apply _.
Defined.

Definition vite_names (nodes : list Vite.ModuleNode) : gset string :=
  list_to_set (omap vite_name nodes).

Definition vite_restores
    (visit : Vite.ModuleNode -> gset string -> option Found) : Prop :=
  ∀ c s s', visit c s = Some (None, s') -> s' = s.

End ViteGraph.

(** A live graph where the only way to the forbidden module leads through
    a stylesheet. *)
Definition through_css : list Vite.ModuleNode :=
  [ {| Vite.id := Some "/src/page.js"; Vite.url := "/src/page.js";
       Vite.file := Some "/src/page.js"; Vite.importedModules := [1] |};
    {| Vite.id := Some "/src/app.css"; Vite.url := "/src/app.css";
       Vite.file := Some "/src/app.css"; Vite.importedModules := [2] |};
    {| Vite.id := Some "/src/secret.js"; Vite.url := "/src/secret.js";
       Vite.file := Some "/src/secret.js"; Vite.importedModules := [] |} ].

Definition through_css_graph (r : Vite.ref) : option Vite.ModuleNode :=
  through_css !! r.

(** ** Connect's middleware stack: [remove_static_middlewares] *)

(** A layer of [server.stack], as far as it is read. *)
Record Middleware := { route : string; handle_name : string }.

#[global] Instance Middleware_eq_dec : EqDecision Middleware.
Proof. solve_decision. Defined.

Definition static_middlewares : list string :=
  ["viteServePublicMiddleware"; "viteServeStaticMiddleware"].

(** The loop [for (let i = ...; i > 0; i--)], from index [i] downwards:
    [server.stack.splice(i, 1)] when the layer at [i] is a static one. *)
Fixpoint remove_static_from (i : nat) (stack : list Middleware) : list Middleware :=
  match i with
  | O => stack
  | S i' =>
      remove_static_from i'
        (match stack !! i with
         | Some layer =>
             if bool_decide (handle_name layer ∈ static_middlewares)
             then delete i stack else stack
         | None => stack
         end)
  end.

Definition remove_static_middlewares (stack : list Middleware) : list Middleware :=
  remove_static_from (List.length stack - 1) stack.

(** ** Entry points: [resolve_entry] *)

Fixpoint has_dot (s : string) : bool :=
  match s with
  | EmptyString => false
  | String c rest => Ascii.eqb c "."%char || has_dot rest
  end.

(** [file.replace(/\.[^.]+$/, '')]: the name without its last extension,
    that is without its last dot and what follows, when something
    follows. *)
Fixpoint strip_extension (s : string) : string :=
  match s with
  | EmptyString => EmptyString
  | String c rest =>
      if Ascii.eqb c "."%char then
        if has_dot rest then String c (strip_extension rest)
        else if String.eqb rest "" then s
        else EmptyString
      else String c (strip_extension rest)
  end.

Section ResolveEntry.
Variable fs : FileSystem.
(** Node's [path.join], [path.dirname] and [path.basename]. *)
Variable path_join : string -> string -> string.
Variable path_dirname : string -> string.
Variable path_basename : string -> string.

(** [files.find((file) => file.replace(/\.[^.]+$/, '') === base)]. *)
Definition find_by_stem (base : string) (files : list string) : option string :=
  List.find (fun file => String.eqb (strip_extension file) base) files.

Fixpoint resolve_entry (fuel : nat) (entry : string)
    : option (Completion (option string)) :=
  match fuel with
  | O => None
  | S fuel' =>
      if existsSync fs entry then
        if isDirectory fs entry
        then resolve_entry fuel' (path_join entry "index")
        else Some (Returned (Some entry))
      else
        let dir := path_dirname entry in
        if existsSync fs dir then
          let base := path_basename entry in
          match readdirSync fs dir with
          | Threw e => Some (Threw e)
          | Returned files =>
              match find_by_stem base files with
              | Some found =>
                  if String.eqb found "" then Some (Returned None)
                  else Some (Returned (Some (path_join dir found)))
              | None => Some (Returned None)
              end
          end
        else Some (Returned None)
  end.

(** [entry], then [entry/index], then [entry/index/index], ... *)
Fixpoint descend_index (k : nat) (entry : string) : string :=
  match k with
  | O => entry
  | S k' => descend_index k' (path_join entry "index")
  end.

End ResolveEntry.

(** A project with [src/hooks.ts] and a directory [src/lib] that holds
    [index.js]. *)
Definition project_fs : FileSystem :=
  {| existsSync f :=
       bool_decide (f ∈ ["/app/src"; "/app/src/hooks.ts"; "/app/src/lib";
                         "/app/src/lib/index.js"]);
     isDirectory f := bool_decide (f ∈ ["/app/src"; "/app/src/lib"]);
     readdirSync d :=
       if String.eqb d "/app/src" then Returned ["app.html"; "hooks.ts"; "lib"]
       else if String.eqb d "/app/src/lib" then Returned ["index.js"]
       else Threw "ENOENT: no such file or directory" |}.

(** ** Aliases: [get_aliases] *)

(** The parts of [ValidatedKitConfig] that [get_aliases] reads. *)
Record KitConfig := {
  kit_outDir : string;
  kit_files_lib : string;
  kit_alias : gmap string string
}.

Section Aliases.
(** [path.posix.join], [path.resolve], [get_runtime_directory] of
    [core/utils.js] and whether [process.env.BUNDLED] is set. *)
Variable path_posix_join : string -> string -> string.
Variable path_resolve : string -> string.
Variable get_runtime_directory : KitConfig -> string.
Variable BUNDLED : bool.

(** The aliases before [config.alias] is looked at. *)
Definition builtin_aliases (config : KitConfig) : gmap string string :=
  let alias : gmap string string :=
    <[ "$lib" := kit_files_lib config ]>
    (<[ "$app" := get_runtime_directory config ++ "/app" ]>
    (<[ "__GENERATED__" := path_posix_join (kit_outDir config) "generated" ]> ∅)) in
  let alias :=
    if BUNDLED then alias
    else <[ "$env/static/private" :=
              path_posix_join (kit_outDir config) "runtime/env/static/private.js" ]>
         (<[ "$env/static/public" :=
               path_posix_join (kit_outDir config) "runtime/env/static/public.js" ]>
          alias) in
  <[ "$env" := get_runtime_directory config ++ "/env" ]> alias.

Definition get_aliases (config : KitConfig) : gmap string string :=
  foldl (fun alias kv => <[ kv.1 := path_resolve kv.2 ]> alias)
        (builtin_aliases config) (entries_of (kit_alias config)).

End Aliases.

(** ** The manifest: node loaders and matchers of [update_manifest] *)

(** What a node loader returns, as far as the model follows it;
    [node_graph] is the module node its [inline_styles] closes over. *)
Record SSRNode := {
  node_module : gmap string JSValue;
  node_index : nat;
  node_file : string;
  node_graph : Vite.ModuleNode
}.

Section Manifest.
Variable path_join : string -> string -> string.
Variable path_relative : string -> string -> string.
Variable cwd : string.
Variable normalizePath : string -> string.
Variable extname : string -> string.
Variable deref : Vite.ref -> option Vite.ModuleNode.
(** [path.posix.resolve], [path.resolve(cwd, file)], [vite.ssrLoadModule]
    and [vite.moduleGraph.getModuleByUrl]. *)
Variable path_posix_resolve : string -> string.
Variable path_resolve : string -> string -> string.
Variable ssrLoadModule : string -> Completion (gmap string JSValue).
Variable getModuleByUrl : string -> option Vite.ModuleNode.
Variable illegal_imports : gset string.
(** [svelte_config.extensions], [svelte_config.kit.moduleExtensions] and
    [svelte_config.kit.outDir]. *)
Variable extensions : list string.
Variable moduleExtensions : list string.
Variable out_dir : string.

Definition component_url (id : string) : string :=
  if startsWith id ".." then "/@fs" ++ path_posix_resolve id else "/" ++ id.

(** One element of [nodes]: the loader of the component [id] at [index]. *)
Definition load_node (fuel : nat) (id : string) (index : nat)
    : option (Completion SSRNode) :=
  let url := component_url id in
  match ssrLoadModule url with
  | Threw e => Some (Threw e)
  | Returned module =>
      match getModuleByUrl url with
      | None => Some (Threw ("Could not find node for " ++ url))
      | Some node =>
          match prevent_illegal_vite_imports path_join path_relative cwd
                  normalizePath extname deref fuel node illegal_imports
                  (extensions ++ moduleExtensions)%list out_dir with
          | None => None
          | Some (Threw e) => Some (Threw e)
          | Some (Returned _) =>
              Some (Returned
                      {| node_module := module;
                         node_index := index;
                         node_file := if endsWith url ".svelte" then url
                                      else url ++ "?import";
                         node_graph := node |})
          end
      end
  end.

(** The loop of [matchers], over the entries of [manifest_data.matchers]
    in key order; [matchers] is the record built so far. *)
Fixpoint load_matchers (entries : list (string * string))
    (matchers : gmap string JSValue) : Completion (gmap string JSValue) :=
  match entries with
  | [] => Returned matchers
  | (key, file) :: rest =>
      match ssrLoadModule (path_resolve cwd file) with
      | Threw e => Threw e
      | Returned module =>
          if truthy (get module "match")
          then load_matchers rest (<[ key := get module "match" ]> matchers)
          else Threw (file ++ " does not export a `match` function")
      end
  end.

End Manifest.

(** ** Merging configuration objects: [deep_merge] *)

(** The values [merge_into] tells apart.  [JObj] is an object with its own
    enumerable properties in [for ... in] order, none of them named
    [__proto__]; [JAtom] stands for [undefined], a primitive, a function or
    an object with a constructor of its own class. *)
Inductive Json :=
| JNull
| JAtom (text : string)
| JArr (items : list Json)
| JObj (fields : list (string * Json)).

(** [o[prop]] and [o[prop] = v] on the properties of an object. *)
Fixpoint get_prop (prop : string) (o : list (string * Json)) : option Json :=
  match o with
  | [] => None
  | (k, v) :: rest => if String.eqb k prop then Some v else get_prop prop rest
  end.

Fixpoint set_prop (prop : string) (v : Json) (o : list (string * Json))
    : list (string * Json) :=
  match o with
  | [] => [(prop, v)]
  | (k, old) :: rest =>
      if String.eqb k prop then (k, v) :: rest
      else (k, old) :: set_prop prop v rest
  end.

Definition has_prop (prop : string) (o : list (string * Json)) : bool :=
  match get_prop prop o with Some _ => true | None => false end.

(** What reading [null.constructor] throws. *)
Definition null_constructor : string :=
  "TypeError: Cannot read properties of null (reading 'constructor')".

(** [is_plain_object(x)]: [typeof x === 'object' && x.constructor === Object].
    An object with a [constructor] property of its own is not plain. *)
Definition is_plain_object (x : option Json) : Completion bool :=
  match x with
  | Some JNull => Threw null_constructor
  | Some (JObj fields) => Returned (negb (has_prop "constructor" fields))
  | _ => Returned false
  end.

(** The object [merge_into] recurses into: [a[prop]] when it is plain, a
    fresh [{}] otherwise. *)
Definition merge_target (old : option Json) : Completion (list (string * Json)) :=
  match is_plain_object old with
  | Threw e => Threw e
  | Returned true =>
      match old with Some (JObj fields) => Returned fields | _ => Returned [] end
  | Returned false => Returned []
  end.

(** One round of the loop of [merge_into]: the new value of [a[prop]],
    from the old one and [b[prop]]. *)
Fixpoint merge_prop (old : option Json) (bv : Json) {struct bv} : Completion Json :=
  match bv with
  | JNull => Threw null_constructor
  | JAtom _ => Returned bv
  | JArr items =>
      Returned (JArr ((match old with Some (JArr xs) => xs | _ => [] end) ++ items))
  | JObj fields =>
      if has_prop "constructor" fields then Returned bv
      else
        match merge_target old with
        | Threw e => Threw e
        | Returned target =>
            match (fix merge_fields (a b : list (string * Json))
                     : Completion (list (string * Json)) :=
                     match b with
                     | [] => Returned a
                     | (prop, v) :: rest =>
                         match merge_prop (get_prop prop a) v with
                         | Threw e => Threw e
                         | Returned v' => merge_fields (set_prop prop v' a) rest
                         end
                     end) target fields with
            | Threw e => Threw e
            | Returned merged => Returned (JObj merged)
            end
        end
  end.

(** [merge_into(a, b)], with the object [a] has become as result. *)
Fixpoint merge_into (a b : list (string * Json))
    : Completion (list (string * Json)) :=
  match b with
  | [] => Returned a
  | (prop, v) :: rest =>
      match merge_prop (get_prop prop a) v with
      | Threw e => Threw e
      | Returned v' => merge_into (set_prop prop v' a) rest
      end
  end.

(** [objects.forEach((o) => merge_into(result, o))]. *)
Fixpoint merge_each (result : list (string * Json))
    (objects : list (list (string * Json))) : Completion (list (string * Json)) :=
  match objects with
  | [] => Returned result
  | o :: rest =>
      match merge_into result o with
      | Threw e => Threw e
      | Returned result' => merge_each result' rest
      end
  end.

Definition deep_merge (objects : list (list (string * Json)))
    : Completion (list (string * Json)) :=
  merge_each [] objects.

(** A [null] sits at a property of the object or of a plain object nested
    in it. *)
Inductive null_inside : list (string * Json) -> Prop :=
| null_here prop fields :
    (prop, JNull) ∈ fields -> null_inside fields
| null_deeper prop sub fields :
    (prop, JObj sub) ∈ fields -> has_prop "constructor" sub = false ->
    null_inside sub -> null_inside fields.

(** Objects [deep_merge] copies as they are: property names are not
    repeated and no property of the object, or of a plain object nested in
    it, is [null]. *)
Fixpoint clean (v : Json) : bool :=
  match v with
  | JNull => false
  | JAtom _ | JArr _ => true
  | JObj fields =>
      has_prop "constructor" fields
      || (bool_decide (NoDup fields.*1)
          && (fix all (fs : list (string * Json)) : bool :=
                match fs with
                | [] => true
                | (_, x) :: rest => clean x && all rest
                end) fields)
  end.

Definition clean_object (o : list (string * Json)) : bool :=
  bool_decide (NoDup o.*1) && forallb (fun kv => clean kv.2) o.

(* ===================================================================== *)
(** * Part II: properties                                                 *)
(* ===================================================================== *)

(** ** The build-graph checker *)

Section RollupFacts.
Variable normalizePath : string -> string.
Variable node_getter : string -> option Rollup.ModuleInfo.
Variable illegal_imports : gset string.

Local Abbreviation find := (find_illegal_rollup_imports normalizePath node_getter illegal_imports).
Local Abbreviation scan := (scan_rollup_imports node_getter).
Local Abbreviation nm := (node_name normalizePath).
Local Abbreviation chain_of := (import_chain normalizePath node_getter illegal_imports).
Local Abbreviation avoiding := (reaches_avoiding normalizePath node_getter illegal_imports).

Lemma scan_null visit ids seen s' :
  restores visit ->
  scan visit ids seen = Some (None, s') ->
  s' = seen ∧
  ∀ i c, i ∈ ids -> node_getter i = Some c -> visit c seen = Some (None, seen).
Proof.
  intros Hres. induction ids as [|i rest IH]; simpl.
  - intros [= <-]. split; [done|]. intros i c Hi. by apply elem_of_nil in Hi.
  - destruct (node_getter i) as [child|] eqn:Hget.
    + destruct (visit child seen) as [[[chain|] s1]|] eqn:Hv; try done.
      pose proof (Hres _ _ _ Hv) as ->. intros Hscan.
      destruct (IH Hscan) as [-> Hall]. split; [done|].
      intros j c [->|Hj]%elem_of_cons Hc; [|eauto].
      rewrite Hget in Hc. by injection Hc as <-.
    + intros Hscan. destruct (IH Hscan) as [-> Hall]. split; [done|].
      intros j c [->|Hj]%elem_of_cons Hc; [congruence | eauto].
Qed.

Lemma scan_found visit ids seen chain s' :
  restores visit ->
  scan visit ids seen = Some (Some chain, s') ->
  ∃ i c, i ∈ ids ∧ node_getter i = Some c ∧ visit c seen = Some (Some chain, s').
Proof.
  intros Hres. induction ids as [|i rest IH]; simpl; [done|].
  destruct (node_getter i) as [child|] eqn:Hget.
  - destruct (visit child seen) as [[[ch|] s1]|] eqn:Hv; try done.
    + intros [= <- <-]. exists i, child. by rewrite elem_of_cons; auto.
    + pose proof (Hres _ _ _ Hv) as ->. intros Hscan.
      destruct (IH Hscan) as (j & c & Hj & Hc & Hvc).
      exists j, c. rewrite elem_of_cons. auto.
  - intros Hscan. destruct (IH Hscan) as (j & c & Hj & Hc & Hvc).
    exists j, c. rewrite elem_of_cons. auto.
Qed.

Lemma scan_total visit ids seen :
  restores visit ->
  (∀ i c, i ∈ ids -> node_getter i = Some c -> is_Some (visit c seen)) ->
  is_Some (scan visit ids seen).
Proof.
  intros Hres. induction ids as [|i rest IH]; simpl; intros Hall; [by eexists|].
  destruct (node_getter i) as [child|] eqn:Hget.
  - destruct (Hall i child) as [[[ch|] s1] Hv]; [by left|done| |].
    + rewrite Hv. by eexists.
    + rewrite Hv. pose proof (Hres _ _ _ Hv) as ->.
      apply IH. intros j c Hj. apply Hall. by right.
  - apply IH. intros j c Hj. apply Hall. by right.
Qed.

Lemma find_restores fuel d :
  restores (fun node => find fuel node d).
Proof.
  revert d. induction fuel as [|fuel IH]; intros d c s s'; simpl; [done|].
  set (here := normalizePath (Rollup.id c)).
  destruct (decide (here ∈ s)) as [Hin|Hout]; [by intros [= <-]|].
  destruct (decide (here ∈ illegal_imports)); [done|].
  destruct (scan _ (Rollup.importedIds c) _) as [[[ch|] s1]|] eqn:Hs; try done.
  apply scan_null in Hs as [-> _]; [|apply IH].
  destruct (scan _ (Rollup.dynamicallyImportedIds c) _) as [[[ch|] s2]|] eqn:Hd;
    try done.
  apply scan_null in Hd as [-> _]; [|apply IH].
  intros [= <-]. set_solver.
Qed.

(** Every chain the traversal returns is a path of import edges, tagged
    edge by edge. *)
Lemma find_sound fuel node d seen chain s' :
  find fuel node d seen = Some (Some chain, s') -> chain_of node d chain.
Proof.
  revert node d seen chain s'.
  induction fuel as [|fuel IH]; intros node d seen chain s'; simpl; [done|].
  set (here := normalizePath (Rollup.id node)).
  destruct (decide (here ∈ seen)); [done|].
  destruct (decide (here ∈ illegal_imports)) as [Hill|_].
  { intros [= <- <-]. by apply chain_end. }
  destruct (scan _ (Rollup.importedIds node) _) as [[[ch|] s1]|] eqn:Hs; try done.
  { intros [= <- <-].
    apply scan_found in Hs as (i & c & Hi & Hc & Hv); [|apply find_restores].
    apply (chain_step _ _ _ node d false c); [by exists i | eauto]. }
  apply scan_null in Hs as [-> _]; [|apply find_restores].
  destruct (scan _ (Rollup.dynamicallyImportedIds node) _) as [[[ch|] s2]|] eqn:Hd;
    try done.
  intros [= <- <-].
  apply scan_found in Hd as (i & c & Hi & Hc & Hv); [|apply find_restores].
  apply (chain_step _ _ _ node d true c); [by exists i | eauto].
Qed.

(** A chain is a witness of reachability. *)
Lemma chain_reaches node d chain :
  chain_of node d chain ->
  reaches_illegal normalizePath node_getter illegal_imports node.
Proof.
  induction 1 as [n d Hill|n d dyn c rest Hedge _ (m & Hrtc & Hm)].
  - by exists n.
  - exists m. split; [|done]. eapply rtc_l; [|done]. by exists dyn.
Qed.

Lemma avoiding_empty node :
  avoiding ∅ node <->
  reaches_illegal normalizePath node_getter illegal_imports node.
Proof.
  split.
  - induction 1 as [n _ Hill|n c _ Hedge _ (m & Hrtc & Hm)].
    + by exists n.
    + exists m. split; [|done]. by eapply rtc_l.
  - intros (m & Hrtc & Hm). induction Hrtc as [n|n c m Hedge _ IH].
    + apply avoid_here; [set_solver|done].
    + eapply avoid_step; [set_solver|done|auto].
Qed.

Lemma avoiding_outside seen node : avoiding seen node -> nm node ∉ seen.
Proof. by destruct 1. Qed.

Lemma NoDup_names_inj (l : list Rollup.ModuleInfo) n m :
  NoDup (nm <$> l) -> n ∈ l -> m ∈ l -> nm n = nm m -> n = m.
Proof.
  induction l as [|x l IH]; [by intros _ ?%elem_of_nil|].
  rewrite fmap_cons. intros [Hx Hl]%NoDup_cons.
  intros [->|Hn]%elem_of_cons [->|Hm]%elem_of_cons Heq; [done| | |by apply IH].
  - exfalso. apply Hx. rewrite Heq. by apply list_elem_of_fmap_2.
  - exfalso. apply Hx. rewrite <- Heq. by apply list_elem_of_fmap_2.
Qed.

Section FiniteGraph.
Variable nodes : list Rollup.ModuleInfo.
Hypothesis graph : module_graph normalizePath node_getter nodes.

Lemma closed_edge n c : n ∈ nodes -> import_edge node_getter n c -> c ∈ nodes.
Proof.
  destruct graph as [Hclosed _]. intros Hn [dyn (i & Hi & Hc)].
  unfold closed in Hclosed. rewrite Forall_forall in Hclosed.
  specialize (Hclosed n Hn). rewrite Forall_forall in Hclosed.
  specialize (Hclosed i). rewrite Hc in Hclosed. apply Hclosed.
  rewrite elem_of_app. destruct dyn; simpl in Hi; auto.
Qed.

Lemma canonical_name n m : n ∈ nodes -> m ∈ nodes -> nm n = nm m -> n = m.
Proof. destruct graph as [_ Hcan]. by apply NoDup_names_inj. Qed.

Local Abbreviation names := (graph_names normalizePath nodes).

Lemma names_size : (size names ≤ List.length nodes)%nat.
Proof.
  unfold graph_names. rewrite <- (length_fmap nm nodes).
  induction (nm <$> nodes) as [|x l IH].
  - rewrite list_to_set_nil, size_empty. simpl. lia.
  - rewrite list_to_set_cons, size_union_alt, size_singleton.
    assert (size (list_to_set l ∖ {[x]} : gset string) ≤ size (list_to_set l : gset string))%nat
      by (apply subseteq_size; set_solver).
    simpl. lia.
Qed.

(** With more fuel than there are canonical ids outside [seen], the
    traversal comes to an answer. *)
Lemma find_total fuel node d seen :
  node ∈ nodes -> (size (names ∖ seen) < fuel)%nat ->
  is_Some (find fuel node d seen).
Proof.
  revert node d seen.
  induction fuel as [|fuel IH]; intros node d seen Hnode Hfuel; simpl; [lia|].
  set (here := normalizePath (Rollup.id node)).
  destruct (decide (here ∈ seen)) as [|Hout]; [by eexists|].
  destruct (decide (here ∈ illegal_imports)); [by eexists|].
  assert (Hless : (size (names ∖ (seen ∪ {[here]})) < fuel)%nat).
  { assert (names ∖ (seen ∪ {[here]}) ⊂ names ∖ seen) as Hsub%subset_size; [|lia].
    assert (here ∈ names).
    { unfold graph_names. apply elem_of_list_to_set.
      by apply (list_elem_of_fmap_2 nm). }
    set_solver. }
  assert (Hkids : ∀ dyn i c, i ∈ imports dyn node -> node_getter i = Some c ->
            is_Some (find fuel c dyn (seen ∪ {[here]}))).
  { intros dyn i c Hi Hc. apply IH; [|done].
    apply (closed_edge node); [done|]. exists dyn. by exists i. }
  destruct (scan_total (fun child => find fuel child false)
              (Rollup.importedIds node) (seen ∪ {[here]}))
    as [[[ch|] s1] Hs]; [apply find_restores|apply (Hkids false)| |].
  { rewrite Hs. by eexists. }
  rewrite Hs. apply scan_null in Hs as [-> _]; [|apply find_restores].
  destruct (scan_total (fun child => find fuel child true)
              (Rollup.dynamicallyImportedIds node) (seen ∪ {[here]}))
    as [[[ch|] s2] Hd]; [apply find_restores|apply (Hkids true)| |];
    rewrite Hd; by eexists.
Qed.

(** A path to a forbidden module that avoids [seen] either avoids [node]
    as well, or goes on from [node] without coming back to it. *)
Lemma avoiding_split seen node m :
  node ∈ nodes -> m ∈ nodes -> avoiding seen m ->
  avoiding (seen ∪ {[nm node]}) m ∨
  nm node ∈ illegal_imports ∨
  ∃ c, import_edge node_getter node c ∧ avoiding (seen ∪ {[nm node]}) c.
Proof.
  intros Hnode Hm Havoid.
  induction Havoid as [m Hout Hill|m c Hout Hedge Hc IH].
  - destruct (decide (nm m = nm node)) as [Heq|Hne].
    + right; left. by rewrite <- Heq.
    + left. apply avoid_here; [set_solver|done].
  - destruct IH as [Hc'|[Hill|Hvia]]; [by eapply closed_edge| |by auto|by auto].
    destruct (decide (nm m = nm node)) as [Heq|Hne].
    + right; right. exists c.
      by rewrite (canonical_name m node Hm Hnode Heq) in Hedge.
    + left. eapply avoid_step; [set_solver|done|done].
Qed.

(** When the traversal answers [null], no forbidden module is reachable
    from the node along a path that avoids [seen]. *)
Lemma find_complete fuel node d seen s' :
  node ∈ nodes ->
  find fuel node d seen = Some (None, s') -> ¬ avoiding seen node.
Proof.
  revert node d seen s'.
  induction fuel as [|fuel IH]; intros node d seen s' Hnode; simpl; [done|].
  set (here := normalizePath (Rollup.id node)).
  destruct (decide (here ∈ seen)) as [Hin|Hout].
  { intros _ Havoid%avoiding_outside. done. }
  destruct (decide (here ∈ illegal_imports)) as [|Hlegal]; [done|].
  destruct (scan _ (Rollup.importedIds node) _) as [[[ch|] s1]|] eqn:Hs; try done.
  apply scan_null in Hs as [-> Hstatic]; [|apply find_restores].
  destruct (scan _ (Rollup.dynamicallyImportedIds node) _) as [[[ch|] s2]|] eqn:Hd;
    try done.
  apply scan_null in Hd as [-> Hdynamic]; [|apply find_restores].
  intros _ Havoid.
  destruct (avoiding_split seen node node Hnode Hnode Havoid)
    as [Hself|[Hill|(c & Hedge & Hc)]].
  - apply avoiding_outside in Hself. set_solver.
  - done.
  - assert (c ∈ nodes) by (by eapply closed_edge).
    destruct Hedge as [[] (i & Hi & Hget)].
    + eapply IH; [|apply (Hdynamic i c Hi Hget)|]; done.
    + eapply IH; [|apply (Hstatic i c Hi Hget)|]; done.
Qed.

Lemma enough_fuel fuel seen :
  (List.length nodes < fuel)%nat -> (size (names ∖ seen) < fuel)%nat.
Proof.
  intros Hfuel. pose proof names_size.
  assert (size (names ∖ seen) ≤ size names)%nat
    by (apply subseteq_size; set_solver).
  lia.
Qed.

(** The static imports are searched first: when a static import of the
    node leads to a forbidden module without coming back through the node
    or [seen], the chain returned goes on through a static import. *)
Lemma find_static_first fuel node d seen c :
  node ∈ nodes -> (List.length nodes < fuel)%nat ->
  nm node ∉ seen -> nm node ∉ illegal_imports ->
  edge node_getter false node c ->
  avoiding (seen ∪ {[nm node]}) c ->
  ∃ c' rest s',
    find fuel node d seen
    = Some (Some ({| name := nm node; dynamic := d |} :: rest), s')
    ∧ edge node_getter false node c' ∧ chain_of c' false rest.
Proof.
  intros Hnode Hfuel Hout Hlegal (i & Hi & Hget) Havoid.
  destruct (find_total fuel node d seen Hnode (enough_fuel _ _ Hfuel)) as [r Hr].
  destruct fuel as [|fuel]; [done|]. revert Hr. simpl.
  fold (nm node). destruct (decide (nm node ∈ seen)); [done|].
  destruct (decide (nm node ∈ illegal_imports)); [done|].
  destruct (scan _ (Rollup.importedIds node) _) as [[[ch|] s1]|] eqn:Hs; [| |done].
  - intros _.
    apply scan_found in Hs as (j & c' & Hj & Hc' & Hv); [|apply find_restores].
    exists c', ch, s1. split; [done|]. split; [by exists j|].
    by eapply find_sound.
  - apply scan_null in Hs as [-> Hstatic]; [|apply find_restores].
    exfalso. eapply (find_complete fuel c false); [|by eapply Hstatic|done].
    apply (closed_edge node); [done|]. exists false. by exists i.
Qed.

(** The answer of the whole traversal, with enough fuel. *)
Lemma find_decides fuel root :
  root ∈ nodes -> (List.length nodes < fuel)%nat ->
  (∃ chain s, find fuel root false ∅ = Some (Some chain, s)
              ∧ chain_of root false chain
              ∧ reaches_illegal normalizePath node_getter illegal_imports root)
  ∨ (find fuel root false ∅ = Some (None, ∅)
     ∧ ¬ reaches_illegal normalizePath node_getter illegal_imports root).
Proof.
  intros Hroot Hfuel.
  destruct (find_total fuel root false ∅ Hroot (enough_fuel _ _ Hfuel))
    as [[[chain|] s] Hr].
  - left. exists chain, s. split; [done|].
    pose proof (find_sound _ _ _ _ _ _ Hr) as Hchain.
    split; [done|]. by eapply chain_reaches.
  - right. pose proof (find_restores _ _ _ _ _ Hr) as ->. split; [done|].
    rewrite <- avoiding_empty. by eapply find_complete.
Qed.

End FiniteGraph.

(** Element [k + 1] of a chain is a module that element [k] imports, and
    its tag is the kind of that import. *)
Lemma chain_positions node d chain :
  chain_of node d chain ->
  (∃ rest, chain = {| name := nm node; dynamic := d |} :: rest) ∧
  ∀ k e, chain !! S k = Some e ->
    ∃ p n c, chain !! k = Some p ∧ name p = nm n ∧ name e = nm c
             ∧ edge node_getter (dynamic e) n c.
Proof.
  induction 1 as [n d Hill|n d dyn c rest Hedge Hc [[rest' ->] IH]].
  - split; [by eexists|]. intros k e. by destruct k.
  - split; [by eexists|]. intros [|k] e; simpl.
    + intros [= <-]. eexists _, n, c. simpl. by repeat split.
    + intros He. apply (IH k e He).
Qed.

End RollupFacts.

(** The chain and [seen] side by side. *)

Section RollupMore.
Variable normalizePath : string -> string.
Variable node_getter : string -> option Rollup.ModuleInfo.
Variable illegal_imports : gset string.

Local Abbreviation find := (find_illegal_rollup_imports normalizePath node_getter illegal_imports).
Local Abbreviation scan := (scan_rollup_imports node_getter).

Lemma find_chain_shape fuel node d seen chain s' :
  find fuel node d seen = Some (Some chain, s') ->
  ∃ front final,
    chain = (front ++ [final])%list
    ∧ name final ∈ illegal_imports
    ∧ Forall (fun e => name e ∉ illegal_imports) front.
Proof.
  revert node d seen chain s'.
  induction fuel as [|fuel IH]; intros node d seen chain s'; simpl; [done|].
  set (here := normalizePath (Rollup.id node)).
  destruct (decide (here ∈ seen)); [done|].
  destruct (decide (here ∈ illegal_imports)) as [Hill|Hlegal].
  { intros [= <- <-]. exists [], {| name := here; dynamic := d |}. by repeat split. }
  assert (Hstep : ∀ dyn ids s1 ch s2,
            scan (fun child => find fuel child dyn) ids s1 = Some (Some ch, s2) ->
            ∃ front final,
              ({| name := here; dynamic := d |} :: ch)
              = (front ++ [final])%list
              ∧ name final ∈ illegal_imports
              ∧ Forall (fun e => name e ∉ illegal_imports) front).
  { intros dyn ids s1 ch s2 Hs.
    apply scan_found in Hs as (i & c & _ & _ & Hv); [|apply find_restores].
    destruct (IH _ _ _ _ _ Hv) as (front & final & -> & Hfinal & Hfront).
    exists ({| name := here; dynamic := d |} :: front), final.
    split; [done|]. split; [done|]. by constructor. }
  destruct (scan _ (Rollup.importedIds node) _) as [[[ch|] s1]|] eqn:Hs; try done.
  { intros [= <- <-]. by eapply Hstep. }
  destruct (scan _ (Rollup.dynamicallyImportedIds node) _) as [[[ch|] s2]|] eqn:Hd;
    try done.
  intros [= <- <-]. by eapply Hstep.
Qed.

Lemma find_chain_stack fuel node d seen chain s' :
  find fuel node d seen = Some (Some chain, s') ->
  NoDup (name <$> chain)
  ∧ (∀ x, x ∈ name <$> chain -> x ∉ seen)
  ∧ s' = seen ∪ list_to_set (name <$> chain).
Proof.
  revert node d seen chain s'.
  induction fuel as [|fuel IH]; intros node d seen chain s'; simpl; [done|].
  set (here := normalizePath (Rollup.id node)).
  destruct (decide (here ∈ seen)) as [|Hout]; [done|].
  destruct (decide (here ∈ illegal_imports)) as [Hill|Hlegal].
  { intros [= <- <-]. simpl. split; [apply NoDup_singleton|].
    split; [|set_solver]. by intros x ->%list_elem_of_singleton. }
  assert (Hstep : ∀ dyn ids ch s2,
            scan (fun child => find fuel child dyn) ids (seen ∪ {[here]})
            = Some (Some ch, s2) ->
            NoDup (name <$> {| name := here; dynamic := d |} :: ch)
            ∧ (∀ x, x ∈ name <$> {| name := here; dynamic := d |} :: ch -> x ∉ seen)
            ∧ s2 = seen ∪ list_to_set (name <$> {| name := here; dynamic := d |} :: ch)).
  { intros dyn ids ch s2 Hs.
    apply scan_found in Hs as (i & c & _ & _ & Hv); [|apply find_restores].
    destruct (IH _ _ _ _ _ Hv) as (Hnd & Hfresh & ->).
    rewrite fmap_cons. simpl. split; [|split].
    - apply NoDup_cons. split; [|done]. intros Hin. apply Hfresh in Hin. set_solver.
    - intros x [->|Hin]%elem_of_cons; [done|]. apply Hfresh in Hin. set_solver.
    - set_solver. }
  destruct (scan _ (Rollup.importedIds node) _) as [[[ch|] s1]|] eqn:Hs; try done.
  { intros [= <- <-]. by eapply Hstep. }
  apply scan_null in Hs as [-> _]; [|apply find_restores].
  destruct (scan _ (Rollup.dynamicallyImportedIds node) _) as [[[ch|] s2]|] eqn:Hd;
    try done.
  intros [= <- <-]. by eapply Hstep.
Qed.

End RollupMore.

(** ** What the build-graph checker decides *)

(** C1. On a finite module graph (cycles allowed) and for any forbidden
    set, [prevent_illegal_rollup_imports] throws exactly when a forbidden
    module is reachable from the root over static or dynamic imports, and
    what it throws is the formatted chain of such a path; when none is
    reachable it returns normally. *)
Theorem prevent_illegal_rollup_imports_iff_reachable
    (path_join path_relative : string -> string -> string) (cwd : string)
    (normalizePath : string -> string)
    (node_getter : string -> option Rollup.ModuleInfo)
    (nodes : list Rollup.ModuleInfo) (root : Rollup.ModuleInfo)
    (illegal_imports : gset string) (out_dir : string) (fuel : nat) :
  module_graph normalizePath node_getter nodes ->
  root ∈ nodes ->
  (List.length nodes < fuel)%nat ->
  let outcome :=
    prevent_illegal_rollup_imports path_join path_relative cwd fuel
      normalizePath node_getter root illegal_imports out_dir in
  let reachable := reaches_illegal normalizePath node_getter illegal_imports root in
  ((∃ message, outcome = Some (Threw message)) <-> reachable)
  ∧ (reachable ->
     ∃ chain,
       import_chain normalizePath node_getter illegal_imports root false chain
       ∧ outcome = Some (Threw (format_illegal_import_chain
                                  path_join path_relative cwd chain out_dir)))
  ∧ (¬ reachable -> outcome = Some (Returned tt)).
Proof.
  intros Hgraph Hroot Hfuel outcome reachable. subst outcome reachable.
  unfold prevent_illegal_rollup_imports.
  destruct (find_decides normalizePath node_getter illegal_imports nodes Hgraph
              fuel root Hroot Hfuel)
    as [(chain & s & -> & Hchain & Hreach)|[-> Hnone]].
  - split; [|split].
    + split; [done|]. intros _. by eexists.
    + intros _. by exists chain.
    + done.
  - split; [|split].
    + split; [by intros [message [=]]|done].
    + done.
    + done.
Qed.

Lemma with_cycle_graph : module_graph normalized (getModuleInfo with_cycle) with_cycle.
Proof. apply (bool_decide_unpack _). vm_compute. exact I. Qed.

Lemma prevent_illegal_rollup_imports_iff_reachable_witness :
  let outcome :=
    prevent_illegal_rollup_imports join_with_slash relative_as_is "/app" 4
      normalized (getModuleInfo with_cycle) (module_ "A" ["B"] []) {[ "C" ]}
      "/app/.svelte-kit" in
  let reachable :=
    reaches_illegal normalized (getModuleInfo with_cycle) {[ "C" ]}
      (module_ "A" ["B"] []) in
  ((∃ message, outcome = Some (Threw message)) <-> reachable)
  ∧ (reachable ->
     ∃ chain,
       import_chain normalized (getModuleInfo with_cycle) {[ "C" ]}
         (module_ "A" ["B"] []) false chain
       ∧ outcome = Some (Threw (format_illegal_import_chain
                                  join_with_slash relative_as_is "/app" chain
                                  "/app/.svelte-kit")))
  ∧ (¬ reachable -> outcome = Some (Returned tt)).
Proof.
  apply (prevent_illegal_rollup_imports_iff_reachable
           join_with_slash relative_as_is "/app" normalized
           (getModuleInfo with_cycle) with_cycle).
  - exact with_cycle_graph.
  - apply (bool_decide_unpack _). vm_compute. exact I.
  - simpl. lia.
Defined.

(** C3. A chain returned by the build-graph checker starts with the root,
    tagged [dynamic: false]; every later element is a module its
    predecessor imports, tagged [dynamic: true] when that import is among
    the predecessor's dynamic imports and [false] when it is among the
    static ones. *)
Theorem chain_elements_carry_their_edge_kind
    (normalizePath : string -> string)
    (node_getter : string -> option Rollup.ModuleInfo)
    (illegal_imports : gset string) (fuel : nat)
    (root : Rollup.ModuleInfo) (chain : list ImportNode) (seen' : gset string) :
  find_illegal_rollup_imports normalizePath node_getter illegal_imports
    fuel root false ∅ = Some (Some chain, seen') ->
  import_chain normalizePath node_getter illegal_imports root false chain
  ∧ (∃ rest, chain = {| name := node_name normalizePath root; dynamic := false |} :: rest)
  ∧ ∀ k e, chain !! S k = Some e ->
      ∃ p n c, chain !! k = Some p
               ∧ name p = node_name normalizePath n
               ∧ name e = node_name normalizePath c
               ∧ c ∈ omap node_getter
                       (if dynamic e then Rollup.dynamicallyImportedIds n
                        else Rollup.importedIds n).
Proof.
  intros Hfind. apply find_sound in Hfind. split; [done|].
  destruct (chain_positions _ _ _ _ _ _ Hfind) as [Hhead Hpos].
  split; [done|]. intros k e He.
  destruct (Hpos k e He) as (p & n & c & Hp & Hn & Hc & i & Hi & Hget).
  exists p, n, c. repeat split; try done.
  apply list_elem_of_omap. exists i. split; [|done].
  unfold imports in Hi. by destruct (dynamic e).
Qed.

Lemma chain_elements_carry_their_edge_kind_witness :
  let chain := [ {| name := "A"; dynamic := false |};
                 {| name := "B"; dynamic := false |};
                 {| name := "C"; dynamic := true |} ] in
  find_illegal_rollup_imports normalized (getModuleInfo dynamic_tail) {[ "C" ]}
    4 (module_ "A" ["B"] []) false ∅ = Some (Some chain, {[ "A"; "B"; "C" ]})
  ∧ import_chain normalized (getModuleInfo dynamic_tail) {[ "C" ]}
      (module_ "A" ["B"] []) false chain
  ∧ (∃ rest, chain = {| name := "A"; dynamic := false |} :: rest)
  ∧ ∀ k e, chain !! S k = Some e ->
      ∃ p n c, chain !! k = Some p
               ∧ name p = node_name normalized n
               ∧ name e = node_name normalized c
               ∧ c ∈ omap (getModuleInfo dynamic_tail)
                       (if dynamic e then Rollup.dynamicallyImportedIds n
                        else Rollup.importedIds n).
Proof.
  intros chain.
  assert (Hrun : find_illegal_rollup_imports normalized
                   (getModuleInfo dynamic_tail) {[ "C" ]}
                   4 (module_ "A" ["B"] []) false ∅
                 = Some (Some chain, {[ "A"; "B"; "C" ]}))
    by (vm_compute; reflexivity).
  split; [exact Hrun|].
  exact (chain_elements_carry_their_edge_kind normalized
           (getModuleInfo dynamic_tail) {[ "C" ]} 4 (module_ "A" ["B"] [])
           chain {[ "A"; "B"; "C" ]} Hrun).
Defined.

(** C4. When the module graph has exactly one path from the root to a
    forbidden module (a path visits no module twice; the graph may have
    cycles) and all its edges are static, the checker returns that path,
    in order, with [dynamic: false] on every element. *)
Theorem unique_static_path_is_the_chain
    (normalizePath : string -> string)
    (node_getter : string -> option Rollup.ModuleInfo)
    (nodes : list Rollup.ModuleInfo) (root : Rollup.ModuleInfo)
    (illegal_imports : gset string) (fuel : nat)
    (path : list Rollup.ModuleInfo) :
  module_graph normalizePath node_getter nodes ->
  root ∈ nodes ->
  (List.length nodes < fuel)%nat ->
  import_chain normalizePath node_getter illegal_imports root false
    (static_chain normalizePath path) ->
  (∀ other,
     import_chain normalizePath node_getter illegal_imports root false other ->
     NoDup (name <$> other) ->
     other = static_chain normalizePath path) ->
  ∃ seen',
    find_illegal_rollup_imports normalizePath node_getter illegal_imports
      fuel root false ∅
    = Some (Some ((fun n => {| name := normalizePath (Rollup.id n);
                               dynamic := false |}) <$> path), seen').
Proof.
  intros Hgraph Hroot Hfuel Hpath Hunique.
  destruct (find_decides normalizePath node_getter illegal_imports nodes Hgraph
              fuel root Hroot Hfuel)
    as [(chain & s & Hfind & Hchain & _)|[_ Hnone]].
  - exists s. rewrite Hfind.
    destruct (find_chain_stack _ _ _ _ _ _ _ _ _ Hfind) as [Hnd _].
    by rewrite (Hunique chain Hchain Hnd).
  - exfalso. apply Hnone. by eapply chain_reaches.
Qed.

(** Taking a chain of a concrete graph apart, one edge at a time. *)
Ltac edge_cases Hedge c :=
  let i := fresh "i" in
  let Hi := fresh "Hi" in
  let Hget := fresh "Hget" in
  destruct Hedge as (i & Hi & Hget);
  cbn in Hi;
  repeat (apply elem_of_cons in Hi as [Hi|Hi]; [subst i; vm_compute in Hget|]);
  try (apply elem_of_nil in Hi; contradiction);
  try discriminate Hget;
  try (injection Hget as <-).

Ltac chain_cases H Hrest :=
  let n := fresh "n" in
  let d := fresh "d" in
  let dyn := fresh "dyn" in
  let c := fresh "c" in
  let rest := fresh "rest" in
  let Hill := fresh "Hill" in
  let Hedge := fresh "Hedge" in
  inversion H as [n d Hill|n d dyn c rest Hedge Hrest]; subst; clear H;
  [ cbn in Hill; try (apply elem_of_singleton in Hill; discriminate Hill)
  | destruct dyn; edge_cases Hedge c ].

Lemma static_loop_unique other :
  import_chain normalized (getModuleInfo static_loop) {[ "C" ]}
    (module_ "A" ["B"] []) false other ->
  NoDup (name <$> other) ->
  other = static_chain normalized [ module_ "A" ["B"] []; module_ "B" ["A"; "C"] [];
                                    module_ "C" [] [] ].
Proof.
  intros H Hnd. chain_cases H HB. chain_cases HB HX.
  - exfalso. chain_cases HX Hback.
    rewrite !fmap_cons in Hnd. simpl in Hnd.
    apply NoDup_cons in Hnd as [Hfirst _]. apply Hfirst.
    apply elem_of_cons. right. apply elem_of_cons. by left.
  - chain_cases HX Hend. reflexivity.
Qed.

Lemma static_loop_graph : module_graph normalized (getModuleInfo static_loop) static_loop.
Proof. apply (bool_decide_unpack _). vm_compute. exact I. Qed.

Lemma static_loop_path :
  import_chain normalized (getModuleInfo static_loop) {[ "C" ]}
    (module_ "A" ["B"] []) false
    (static_chain normalized [ module_ "A" ["B"] []; module_ "B" ["A"; "C"] [];
                               module_ "C" [] [] ]).
Proof.
  apply (chain_step _ _ _ (module_ "A" ["B"] []) false false (module_ "B" ["A"; "C"] [])).
  { exists "B". split; [set_solver|reflexivity]. }
  apply (chain_step _ _ _ (module_ "B" ["A"; "C"] []) false false (module_ "C" [] [])).
  { exists "C". split; [set_solver|reflexivity]. }
  apply (chain_end _ _ _ (module_ "C" [] []) false). set_solver.
Qed.

Lemma unique_static_path_is_the_chain_witness :
  ∃ seen',
    find_illegal_rollup_imports normalized (getModuleInfo static_loop) {[ "C" ]}
      4 (module_ "A" ["B"] []) false ∅
    = Some (Some [ {| name := "A"; dynamic := false |};
                   {| name := "B"; dynamic := false |};
                   {| name := "C"; dynamic := false |} ], seen').
Proof.
  apply (unique_static_path_is_the_chain normalized (getModuleInfo static_loop)
           static_loop (module_ "A" ["B"] []) {[ "C" ]} 4
           [ module_ "A" ["B"] []; module_ "B" ["A"; "C"] []; module_ "C" [] [] ]).
  - exact static_loop_graph.
  - apply (bool_decide_unpack _). vm_compute. exact I.
  - simpl. lia.
  - exact static_loop_path.
  - exact static_loop_unique.
Defined.

(** The straight line [A -> B -> C] with [C] forbidden. *)
Lemma static_line_chain :
  fst <$> find_illegal_rollup_imports normalized (getModuleInfo static_line) {[ "C" ]}
            4 (module_ "A" ["B"] []) false ∅
  = Some (Some [ {| name := "A"; dynamic := false |};
                 {| name := "B"; dynamic := false |};
                 {| name := "C"; dynamic := false |} ]).
Proof. vm_compute. reflexivity. Qed.

(** C5. At every node the static imports are searched before the dynamic
    ones: when one of the node's static imports leads to a forbidden
    module (without coming back through the node or a module already on
    the way), the chain returned goes on through a static import of the
    node, whatever its dynamic imports reach. *)
Theorem static_imports_are_searched_first
    (normalizePath : string -> string)
    (node_getter : string -> option Rollup.ModuleInfo)
    (nodes : list Rollup.ModuleInfo) (illegal_imports : gset string)
    (fuel : nat) (node : Rollup.ModuleInfo) (dynamic : bool)
    (seen : gset string) (i : string) (child : Rollup.ModuleInfo) :
  module_graph normalizePath node_getter nodes ->
  node ∈ nodes ->
  (List.length nodes < fuel)%nat ->
  normalizePath (Rollup.id node) ∉ seen ->
  normalizePath (Rollup.id node) ∉ illegal_imports ->
  i ∈ Rollup.importedIds node ->
  node_getter i = Some child ->
  reaches_avoiding normalizePath node_getter illegal_imports
    (seen ∪ {[ normalizePath (Rollup.id node) ]}) child ->
  ∃ j first rest seen',
    find_illegal_rollup_imports normalizePath node_getter illegal_imports
      fuel node dynamic seen
    = Some (Some ({| name := normalizePath (Rollup.id node); dynamic := dynamic |}
                  :: rest), seen')
    ∧ j ∈ Rollup.importedIds node
    ∧ node_getter j = Some first
    ∧ import_chain normalizePath node_getter illegal_imports first false rest.
Proof.
  intros Hgraph Hnode Hfuel Hout Hlegal Hi Hget Havoid.
  destruct (find_static_first normalizePath node_getter illegal_imports nodes
              Hgraph fuel node dynamic seen child Hnode Hfuel Hout Hlegal)
    as (first & rest & s' & Hfind & (j & Hj & Hfirst) & Hchain);
    [by exists i|done|].
  by exists j, first, rest, s'.
Qed.

Lemma both_ways_graph : module_graph normalized (getModuleInfo both_ways) both_ways.
Proof. apply (bool_decide_unpack _). vm_compute. exact I. Qed.

Lemma both_ways_static :
  reaches_avoiding normalized (getModuleInfo both_ways) {[ "F1"; "F2" ]}
    (∅ ∪ {[ "R" ]}) (module_ "S" ["F1"] []).
Proof.
  apply (avoid_step _ _ _ _ (module_ "S" ["F1"] []) (module_ "F1" [] [])).
  - cbn. set_solver.
  - exists false, "F1". split; [set_solver|reflexivity].
  - apply avoid_here; cbn; set_solver.
Qed.

Lemma static_imports_are_searched_first_witness :
  ∃ j first rest seen',
    find_illegal_rollup_imports normalized (getModuleInfo both_ways)
      {[ "F1"; "F2" ]} 6 (module_ "R" ["S"] ["D"]) false ∅
    = Some (Some ({| name := "R"; dynamic := false |} :: rest), seen')
    ∧ j ∈ ["S"]
    ∧ getModuleInfo both_ways j = Some first
    ∧ import_chain normalized (getModuleInfo both_ways) {[ "F1"; "F2" ]}
        first false rest.
Proof.
  apply (static_imports_are_searched_first normalized (getModuleInfo both_ways)
           both_ways {[ "F1"; "F2" ]} 6 (module_ "R" ["S"] ["D"]) false ∅
           "S" (module_ "S" ["F1"] [])).
  - exact both_ways_graph.
  - apply (bool_decide_unpack _). vm_compute. exact I.
  - simpl. lia.
  - cbn. set_solver.
  - cbn. set_solver.
  - cbn. set_solver.
  - reflexivity.
  - exact both_ways_static.
Defined.

(** ** The dev-graph checker *)

Section ViteFacts.
Variable normalizePath : string -> string.
Variable extname : string -> string.
Variable deref : Vite.ref -> option Vite.ModuleNode.
Variable illegal_imports : gset string.
Variable module_types : gset string.

Lemma scan_vite_found visit children seen chain s' :
  scan_vite_imports deref visit children seen = Some (Some chain, s') ->
  ∃ child s, visit child s = Some (Some chain, s').
Proof.
  revert seen. induction children as [|r rest IH]; intros seen; simpl; [done|].
  destruct (deref r) as [child|]; [|apply IH].
  destruct (visit child seen) as [[[ch|] s1]|] eqn:Hv; [|apply IH|done].
  intros [= <- <-]. by exists child, seen.
Qed.

Lemma find_vite_static fuel node seen chain s' :
  find_illegal_vite_imports normalizePath extname deref illegal_imports
    module_types fuel node seen = Some (Some chain, s') ->
  Forall (fun e => dynamic e = false) chain.
Proof.
  revert node seen chain s'.
  induction fuel as [|fuel IH]; intros node seen chain s'; simpl; [done|].
  destruct (Vite.id node) as [node_id|]; [|done].
  destruct node_id as [|a node_id]; [done|].
  destruct (_ || _); [done|].
  destruct (_ && _).
  { intros [= <- <-]. by repeat constructor. }
  destruct (scan_vite_imports _ _ _ _) as [[[ch|] s1]|] eqn:Hs; try done.
  intros [= <- <-]. constructor; [done|].
  apply scan_vite_found in Hs as (child & s & Hv). by eapply IH.
Qed.

End ViteFacts.

(** C10. Every chain of the dev-graph checker has [dynamic: false] on
    every element, whatever the node, the forbidden set, the module types
    and the [seen] set it starts from; so has every chain
    [prevent_illegal_vite_imports] throws. *)
Theorem vite_chain_is_never_dynamic
    (path_join path_relative : string -> string -> string) (cwd : string)
    (normalizePath extname : string -> string)
    (deref : Vite.ref -> option Vite.ModuleNode)
    (illegal_imports : gset string) (fuel : nat) (node : Vite.ModuleNode) :
  (∀ (module_types seen seen' : gset string) (chain : list ImportNode),
     find_illegal_vite_imports normalizePath extname deref illegal_imports
       module_types fuel node seen = Some (Some chain, seen') ->
     Forall (fun e => dynamic e = false) chain)
  ∧ (∀ (module_types : list string) (out_dir message : string),
       prevent_illegal_vite_imports path_join path_relative cwd normalizePath
         extname deref fuel node illegal_imports module_types out_dir
       = Some (Threw message) ->
       ∃ chain,
         Forall (fun e => dynamic e = false) chain
         ∧ message = format_illegal_import_chain path_join path_relative cwd
                       chain out_dir).
Proof.
  split.
  - intros module_types seen seen' chain. apply find_vite_static.
  - intros module_types out_dir message. unfold prevent_illegal_vite_imports.
    destruct (find_illegal_vite_imports _ _ _ _ _ _ _ _)
      as [[[chain|] s]|] eqn:Hfind; try done.
    intros [= <-]. exists chain. split; [|done]. by eapply find_vite_static.
Qed.

Lemma vite_chain_is_never_dynamic_witness :
  find_illegal_vite_imports normalized extname_of live_graph
    {[ "/src/secret.js" ]} (get_module_types []) 3 page_node ∅
  = Some (Some [ {| name := "/src/page.js"; dynamic := false |};
                 {| name := "/src/secret.js"; dynamic := false |} ],
          {[ "/src/page.js"; "/src/secret.js" ]})
  ∧ Forall (fun e => dynamic e = false)
      [ {| name := "/src/page.js"; dynamic := false |};
        {| name := "/src/secret.js"; dynamic := false |} ].
Proof.
  assert (Hrun : find_illegal_vite_imports normalized extname_of live_graph
                   {[ "/src/secret.js" ]} (get_module_types []) 3 page_node ∅
                 = Some (Some [ {| name := "/src/page.js"; dynamic := false |};
                                {| name := "/src/secret.js"; dynamic := false |} ],
                         {[ "/src/page.js"; "/src/secret.js" ]}))
    by (vm_compute; reflexivity).
  split; [exact Hrun|].
  exact (proj1 (vite_chain_is_never_dynamic join_with_slash relative_as_is "/app"
                  normalized extname_of live_graph {[ "/src/secret.js" ]} 3
                  page_node)
           (get_module_types []) ∅ _ _ Hrun).
Defined.

(** ** The environment *)

Lemma fromEntries_from (entries : list (string * string)) (o : gmap string string) k v :
  NoDup entries.*1 ->
  foldl (fun o kv => <[ kv.1 := kv.2 ]> o) o entries !! k = Some v
  <-> (k, v) ∈ entries ∨ ((k ∉ entries.*1) ∧ o !! k = Some v).
Proof.
  revert o. induction entries as [|[k0 v0] l IH]; intros o; simpl.
  - intros _. split; [intros H; right; split; [apply not_elem_of_nil|done]|].
    intros [H%elem_of_nil|[_ H]]; done.
  - intros [Hk0 Hl]%NoDup_cons. rewrite (IH _ Hl). clear IH.
    change (list_fmap _ _ fst l) with (l.*1) in *.
    rewrite not_elem_of_cons, !elem_of_cons.
    destruct (decide (k = k0)) as [->|Hne].
    + rewrite lookup_insert_eq. split.
      * intros [Hin|[_ [= ->]]]; [|by left; left].
        exfalso. apply Hk0. apply list_elem_of_fmap. by exists (k0, v).
      * intros [[[= ->]|Hin]|[[Hne _] _]]; [|by left|done].
        right. split; [done|reflexivity].
    + rewrite lookup_insert_ne by done. split.
      * intros [Hin|[Hout Ho]]; [by left; right|by right].
      * intros [[[= -> ->]|Hin]|[[_ Hout] Ho]]; [done|by left|by right].
Qed.

Lemma fromEntries_lookup (entries : list (string * string)) k v :
  NoDup entries.*1 ->
  fromEntries entries !! k = Some v <-> (k, v) ∈ entries.
Proof.
  intros Hnd. unfold fromEntries. rewrite (fromEntries_from _ _ _ _ Hnd).
  rewrite lookup_empty. naive_solver.
Qed.

Lemma filter_keys_NoDup (f : string * string -> bool) (l : list (string * string)) :
  NoDup l.*1 -> NoDup (List.filter f l).*1.
Proof.
  induction l as [|x l IH]; simpl; [done|].
  intros [Hx Hl]%NoDup_cons. destruct (f x); simpl; [|by apply IH].
  apply NoDup_cons. split; [|by apply IH].
  intros (y & Hy & Hin)%list_elem_of_fmap. apply Hx.
  apply list_elem_of_fmap. exists y. split; [done|].
  apply list_elem_of_In. apply list_elem_of_In in Hin.
  by apply List.filter_In in Hin as [Hin _].
Qed.

Lemma filtered_entries_lookup (f : string * string -> bool) (o : gmap string string) k v :
  fromEntries (List.filter f (entries_of o)) !! k = Some v
  <-> o !! k = Some v ∧ f (k, v) = true.
Proof.
  rewrite fromEntries_lookup
    by (apply filter_keys_NoDup, NoDup_fst_map_to_list).
  rewrite list_elem_of_In, List.filter_In, <- list_elem_of_In.
  unfold entries_of. by rewrite elem_of_map_to_list.
Qed.

(** C8. For every mode and prefix, [get_env] splits what [loadEnv] has
    loaded: an entry is in [public] exactly when its key starts with the
    prefix, in [private] exactly when it does not; the two records share
    no key, and together they are the loaded record. *)
Theorem get_env_partitions_the_environment
    (loadEnv : string -> string -> string -> gmap string string)
    (cwd mode prefix : string) :
  let loaded := loadEnv mode cwd "" in
  let env := get_env loadEnv cwd mode prefix in
  (∀ k v, public env !! k = Some v
          <-> loaded !! k = Some v ∧ startsWith k prefix = true)
  ∧ (∀ k v, private env !! k = Some v
            <-> loaded !! k = Some v ∧ startsWith k prefix = false)
  ∧ dom (public env) ## dom (private env)
  ∧ dom (public env) ∪ dom (private env) = dom loaded
  ∧ public env ∪ private env = loaded.
Proof.
  intros loaded env.
  assert (Hpub : ∀ k v, public env !! k = Some v
                        <-> loaded !! k = Some v ∧ startsWith k prefix = true).
  { intros k v. subst env. unfold get_env. simpl.
    by rewrite filtered_entries_lookup. }
  assert (Hpriv : ∀ k v, private env !! k = Some v
                         <-> loaded !! k = Some v ∧ startsWith k prefix = false).
  { intros k v. subst env. unfold get_env. simpl.
    rewrite filtered_entries_lookup. simpl. by rewrite negb_true_iff. }
  split; [done|]. split; [done|].
  assert (Hunion : public env ∪ private env = loaded).
  { apply map_eq. intros k. apply option_eq. intros v.
    rewrite lookup_union_Some_raw, Hpub, Hpriv.
    split.
    - intros [[H _]|[_ [H _]]]; done.
    - intros H. destruct (startsWith k prefix) eqn:Hk; [by left|].
      right. split; [|done]. apply eq_None_not_Some.
      intros [w Hw]. apply Hpub in Hw as [_ Hw]. congruence. }
  split; [|split; [|done]].
  - apply elem_of_disjoint. intros k [v Hv]%elem_of_dom [w Hw]%elem_of_dom.
    apply Hpub in Hv as [_ Hv]. apply Hpriv in Hw as [_ Hw]. congruence.
  - by rewrite <- dom_union_L, Hunion.
Qed.

(** ** The style collector *)

Section InlineStylesFacts.
Variable ssrLoadModule : string -> Completion (gmap string JSValue).
Variable searchParams : string -> list (string * string).

Local Abbreviation step := (inline_style_step ssrLoadModule searchParams).
Local Abbreviation styles_of := (inline_styles ssrLoadModule searchParams).
Local Abbreviation recorded := (recorded ssrLoadModule searchParams).

Lemma step_lookup styles dep u v :
  step styles dep !! u = Some v
  <-> recorded [dep] u v ∨ ((∀ w, ¬ recorded [dep] u w) ∧ styles !! u = Some v).
Proof.
  unfold inline_style_step, recorded.
  destruct (is_style searchParams dep) eqn:Hstyle.
  - destruct (ssrLoadModule (Vite.url dep)) as [m|e] eqn:Hload.
    + destruct (decide (Vite.url dep = u)) as [<-|Hne].
      * rewrite lookup_insert_eq. split.
        -- intros [= <-]. left. exists dep, m. set_solver.
        -- intros [(d & m' & ->%list_elem_of_singleton & _ & _ & Hm' & ->)|[Hno _]].
           ++ rewrite Hload in Hm'. by injection Hm' as <-.
           ++ exfalso. apply (Hno (get m "default")). exists dep, m. set_solver.
      * rewrite lookup_insert_ne by done. split.
        -- intros H. right. split; [|done].
           intros w (d & m' & ->%list_elem_of_singleton & Hu & _). done.
        -- intros [(d & m' & ->%list_elem_of_singleton & Hu & _)|[_ H]]; done.
    + split.
      * intros H. right. split; [|done].
        intros w (d & m' & ->%list_elem_of_singleton & <- & _ & Hm' & _).
        congruence.
      * intros [(d & m' & ->%list_elem_of_singleton & <- & _ & Hm' & _)|[_ H]];
          [congruence|done].
  - split.
    + intros H. right. split; [|done].
      intros w (d & m' & ->%list_elem_of_singleton & _ & Hs & _). congruence.
    + intros [(d & m' & ->%list_elem_of_singleton & _ & Hs & _)|[_ H]];
        [congruence|done].
Qed.

Lemma recorded_app deps deps' u v :
  recorded (deps ++ deps') u v <-> recorded deps u v ∨ recorded deps' u v.
Proof.
  unfold recorded. setoid_rewrite elem_of_app. naive_solver.
Qed.

Lemma recorded_value deps deps' u v w :
  recorded deps u v -> recorded deps' u w -> v = w.
Proof.
  intros (_ & m & _ & _ & _ & Hm & ->) (_ & m' & _ & _ & _ & Hm' & ->).
  congruence.
Qed.

Lemma inline_styles_lookup deps u v :
  styles_of deps !! u = Some v <-> recorded deps u v.
Proof.
  revert v. induction deps as [|dep deps IH] using rev_ind; intros v.
  - unfold inline_styles. simpl. rewrite lookup_empty. split; [done|].
    by intros (d & _ & ?%elem_of_nil & _).
  - unfold inline_styles in *. rewrite foldl_snoc, step_lookup, recorded_app, IH.
    split.
    + intros [H|[_ H]]; auto.
    + intros [H|H]; [|by left].
      destruct (is_style searchParams dep) eqn:Hstyle;
        [destruct (ssrLoadModule (Vite.url dep)) as [m|e] eqn:Hload;
         [destruct (decide (Vite.url dep = u)) as [Hu|Hne]|]|].
      * left. assert (Hdep : recorded [dep] u (get m "default")).
        { exists dep, m. rewrite <- Hu. set_solver. }
        by rewrite (recorded_value _ _ _ _ _ H Hdep).
      * right. split; [|done].
        intros w (d & m' & ->%list_elem_of_singleton & Hd & _). done.
      * right. split; [|done].
        intros w (d & m' & ->%list_elem_of_singleton & <- & _ & Hm' & _).
        congruence.
      * right. split; [|done].
        intros w (d & m' & ->%list_elem_of_singleton & _ & Hs & _). congruence.
Qed.

(** Dependencies whose module fails to load leave no trace. *)
Lemma inline_styles_skips_failures deps :
  styles_of deps = styles_of (List.filter (loads ssrLoadModule) deps).
Proof.
  unfold inline_styles. generalize (∅ : gmap string JSValue).
  induction deps as [|dep deps IH]; intros styles; simpl; [done|].
  unfold loads at 1.
  destruct (ssrLoadModule (Vite.url dep)) as [m|e] eqn:Hload; simpl.
  - apply IH.
  - rewrite <- IH. f_equal. unfold inline_style_step. rewrite Hload.
    by destruct (is_style _ _).
Qed.

End InlineStylesFacts.

(** C9. [inline_styles] always returns a record, whatever fails to load:
    the dependencies whose module load throws make no difference to it,
    and it holds an entry [u := v] exactly when some collected dependency
    with URL [u] has a file with a stylesheet extension, or a URL with the
    [svelte] parameter and [type=style], and its module loads with default
    export [v]. *)
Theorem inline_styles_keeps_what_loaded
    (ssrLoadModule : string -> Completion (gmap string JSValue))
    (searchParams : string -> list (string * string))
    (deps : list Vite.ModuleNode) :
  inline_styles ssrLoadModule searchParams deps
  = inline_styles ssrLoadModule searchParams
      (List.filter (fun dep => match ssrLoadModule (Vite.url dep) with
                               | Returned _ => true
                               | Threw _ => false
                               end) deps)
  ∧ ∀ u v,
      inline_styles ssrLoadModule searchParams deps !! u = Some v
      <-> ∃ dep mod_,
            dep ∈ deps ∧ Vite.url dep = u
            ∧ (style_pattern_test (Vite.file dep) = true
               ∨ (query_has (searchParams u) "svelte" = true
                  ∧ query_get (searchParams u) "type" = Some "style"))
            ∧ ssrLoadModule u = Returned mod_
            ∧ v = get mod_ "default".
Proof.
  split; [apply inline_styles_skips_failures|].
  intros u v. rewrite inline_styles_lookup. unfold recorded, is_style.
  split.
  - intros (dep & m & Hdep & <- & Hstyle & Hm & ->). exists dep, m.
    repeat split; try done.
    apply orb_true_iff in Hstyle as [H|[H1 H2%bool_decide_eq_true]%andb_true_iff];
      auto.
  - intros (dep & m & Hdep & <- & Hstyle & Hm & ->). exists dep, m.
    repeat split; try done.
    apply orb_true_iff. destruct Hstyle as [H|[H1 H2]]; [by left|right].
    apply andb_true_iff. by rewrite bool_decide_eq_true.
Qed.

(** A stylesheet that loads is kept although the load of the Svelte
    style block beside it fails. *)
Example inline_styles_partial :
  inline_styles load_example query_example [svelte_style_dep; css_dep]
  = {[ "/src/app.css" := JSString "body{margin:0}" ]}.
Proof. vm_compute. reflexivity. Qed.

(** ** The dev server *)

Example asset_with_its_case : example_assets 3 (request_for "/X.png") = Some [AssetServer "/X.png"].
Proof. vm_compute. reflexivity. Qed.

Example asset_with_other_case : example_assets 3 (request_for "/x.png") = Some [Next].
Proof. vm_compute. reflexivity. Qed.

Example dispatch_page :
  example_dispatch false (request_for "/about")
  = [ SetPrivateEnv {[ "SECRET" := "hunter2" ]};
      SetPublicEnv {[ "PUBLIC_API" := "https://api.example" ]};
      SetPaths "" "";
      SetResponse 200 "<h1>about</h1>" ].
Proof. vm_compute. reflexivity. Qed.

Section DevFacts.
Variable config : Config.
Variable fs : FileSystem.
Variable SVELTE_KIT_ASSETS : string.
Variable decode_pathname : string -> Completion string.
Variable encodeURI : string -> string.
Variable path_dirname : string -> string.
Variable path_basename : string -> string.
Variable error_stack : string -> option string.
Variable ssrRewriteStacktrace : string -> string.

Local Abbreviation correct_case := (has_correct_case fs path_dirname path_basename).
Local Abbreviation up := (ancestor path_dirname).
Local Abbreviation listed := (listed fs path_dirname path_basename).

Lemma has_correct_case_true fuel file assets_dir :
  correct_case fuel file assets_dir = Some (Returned true)
  <-> ∃ k, (k < fuel)%nat ∧ up k file = assets_dir
           ∧ ∀ j, (j < k)%nat -> up j file ≠ assets_dir ∧ listed file j.
Proof.
  revert file. induction fuel as [|fuel IH]; intros file; simpl.
  { split; [done|]. intros (k & Hk & _). lia. }
  destruct (String.eqb_spec file assets_dir) as [->|Hne].
  { split; [|done]. intros _. exists 0%nat. split; [lia|]. split; [done|].
    intros j Hj. lia. }
  destruct (readdirSync fs (path_dirname file)) as [names|e] eqn:Hdir.
  - case_bool_decide as Hin.
    + rewrite IH. split.
      * intros (k & Hk & Hup & Hall). exists (S k). split; [lia|].
        split; [done|]. intros [|j] Hj.
        -- split; [done|]. by exists names.
        -- apply (Hall j). lia.
      * intros ([|k] & Hk & Hup & Hall); [done|].
        exists k. split; [lia|]. split; [done|].
        intros j Hj. apply (Hall (S j)). lia.
    + split; [done|]. intros ([|k] & Hk & Hup & Hall); [done|].
      destruct (Hall 0%nat) as [_ (names' & Hdir' & Hin')]; [lia|].
      simpl in Hdir', Hin'. rewrite Hdir in Hdir'. by injection Hdir' as <-.
  - split; [done|]. intros ([|k] & Hk & Hup & Hall); [done|].
    destruct (Hall 0%nat) as [_ (names' & Hdir' & _)]; [lia|].
    simpl in Hdir'. congruence.
Qed.

Lemma has_correct_case_false fuel file assets_dir k names :
  (k < fuel)%nat ->
  (∀ j, (j ≤ k)%nat -> up j file ≠ assets_dir) ->
  (∀ j, (j < k)%nat -> listed file j) ->
  readdirSync fs (up (S k) file) = Returned names ->
  path_basename (up k file) ∉ names ->
  correct_case fuel file assets_dir = Some (Returned false).
Proof.
  revert file fuel. induction k as [|k IH]; intros file fuel Hfuel Hne Hlisted Hdir Hout;
    (destruct fuel as [|fuel]; [lia|]); simpl.
  - destruct (String.eqb_spec file assets_dir) as [Heq|_].
    { by destruct (Hne 0%nat ltac:(lia)). }
    simpl in Hdir, Hout. rewrite Hdir. by rewrite bool_decide_eq_false_2.
  - destruct (String.eqb_spec file assets_dir) as [Heq|_].
    { by destruct (Hne 0%nat ltac:(lia)). }
    destruct (Hlisted 0%nat ltac:(lia)) as (names0 & Hdir0 & Hin0).
    simpl in Hdir0, Hin0. rewrite Hdir0. rewrite bool_decide_eq_true_2 by done.
    apply IH; [lia| | |done|done].
    + intros j Hj. apply (Hne (S j)). lia.
    + intros j Hj. apply (Hlisted (S j)). lia.
Qed.

Local Abbreviation serve_assets :=
  (asset_middleware config fs SVELTE_KIT_ASSETS decode_pathname encodeURI
     path_dirname path_basename error_stack ssrRewriteStacktrace).

Lemma try_catch_asset (correct : Completion bool) pathname u :
  AssetServer u
  ∈ try_catch error_stack ssrRewriteStacktrace
      (let! ok := lift correct in
       if (ok : bool) then emit (AssetServer (encodeURI pathname)) else emit Next) ->
  correct = Returned true ∧ u = encodeURI pathname.
Proof.
  destruct correct as [[]|e]; simpl.
  - by intros [= ->]%list_elem_of_singleton.
  - by intros [=]%list_elem_of_singleton.
  - by intros [=]%list_elem_of_singleton.
Qed.

(** What it takes for the asset middleware to hand a request to the
    asset server. *)
Lemma asset_served_only_if fuel req trace u :
  serve_assets fuel req = Some trace -> AssetServer u ∈ trace ->
  ∃ decoded,
    decode_pathname (origin config req ++ url req) = Returned decoded
    ∧ startsWith decoded (assets config SVELTE_KIT_ASSETS) = true
    ∧ let pathname :=
        slice_from (String.length (assets config SVELTE_KIT_ASSETS)) decoded in
      let file := files_assets config ++ pathname in
      u = encodeURI pathname
      ∧ trace = [AssetServer u]
      ∧ existsSync fs file = true
      ∧ isDirectory fs file = false
      ∧ correct_case fuel file (files_assets config) = Some (Returned true).
Proof.
  unfold asset_middleware.
  destruct (decode_pathname _) as [decoded|e] eqn:Hdecode.
  2:{ simpl. by intros [= <-] [=]%list_elem_of_singleton. }
  destruct (startsWith decoded _) eqn:Hstarts.
  2:{ by intros [= <-] [=]%list_elem_of_singleton. }
  destruct (existsSync fs _) eqn:Hexists; simpl.
  2:{ by intros [= <-] [=]%list_elem_of_singleton. }
  destruct (isDirectory fs _) eqn:Hdir; simpl.
  { by intros [= <-] [=]%list_elem_of_singleton. }
  destruct (correct_case fuel _ _) as [correct|] eqn:Hcase; [|done].
  intros [= <-] Hin. exists decoded.
  apply try_catch_asset in Hin as [-> ->]. by repeat split.
Qed.

End DevFacts.

(** C6. The asset middleware hands a request to the asset server only when
    the decoded pathname starts with the assets path, the file it maps to
    exists and is no directory, and every component from the file up to
    the assets directory is listed by its parent under exactly the name
    asked for; when these hold, it does serve it.  When some component is
    listed under another name only (another case, say), the request goes
    to [next()]. *)
Theorem asset_middleware_serves_exact_case
    (config : Config) (fs : FileSystem) (SVELTE_KIT_ASSETS : string)
    (decode_pathname : string -> Completion string)
    (encodeURI path_dirname path_basename : string -> string)
    (error_stack : string -> option string)
    (ssrRewriteStacktrace : string -> string)
    (fuel : nat) (req : IncomingMessage) :
  let run :=
    asset_middleware config fs SVELTE_KIT_ASSETS decode_pathname encodeURI
      path_dirname path_basename error_stack ssrRewriteStacktrace fuel req in
  let assets_path := assets config SVELTE_KIT_ASSETS in
  let file_of decoded :=
    files_assets config ++ slice_from (String.length assets_path) decoded in
  let components_match file k :=
    ancestor path_dirname k file = files_assets config
    ∧ ∀ j, (j < k)%nat ->
        ancestor path_dirname j file ≠ files_assets config
        ∧ listed fs path_dirname path_basename file j in
  (∀ trace u,
     run = Some trace -> AssetServer u ∈ trace ->
     ∃ decoded k,
       decode_pathname (origin config req ++ url req) = Returned decoded
       ∧ startsWith decoded assets_path = true
       ∧ existsSync fs (file_of decoded) = true
       ∧ isDirectory fs (file_of decoded) = false
       ∧ components_match (file_of decoded) k
       ∧ trace = [AssetServer u]
       ∧ u = encodeURI (slice_from (String.length assets_path) decoded))
  ∧ (∀ decoded k,
       decode_pathname (origin config req ++ url req) = Returned decoded ->
       startsWith decoded assets_path = true ->
       existsSync fs (file_of decoded) = true ->
       isDirectory fs (file_of decoded) = false ->
       (k < fuel)%nat ->
       components_match (file_of decoded) k ->
       run = Some [AssetServer
                     (encodeURI (slice_from (String.length assets_path) decoded))])
  ∧ (∀ decoded k names,
       decode_pathname (origin config req ++ url req) = Returned decoded ->
       (k < fuel)%nat ->
       (∀ j, (j ≤ k)%nat ->
          ancestor path_dirname j (file_of decoded) ≠ files_assets config) ->
       (∀ j, (j < k)%nat ->
          listed fs path_dirname path_basename (file_of decoded) j) ->
       readdirSync fs (ancestor path_dirname (S k) (file_of decoded))
       = Returned names ->
       path_basename (ancestor path_dirname k (file_of decoded)) ∉ names ->
       run = Some [Next]).
Proof.
  intros run assets_path file_of components_match. subst run. split; [|split].
  - intros trace u Hrun Hin.
    destruct (asset_served_only_if _ _ _ _ _ _ _ _ _ _ _ _ _ Hrun Hin)
      as (decoded & Hdecode & Hstarts & -> & -> & Hexists & Hdir & Hcase).
    apply has_correct_case_true in Hcase as (k & _ & Hup & Hall).
    exists decoded, k. unfold components_match, file_of, assets_path. by split_and!.
  - intros decoded k Hdecode Hstarts Hexists Hdir Hk [Hup Hall].
    unfold asset_middleware. rewrite Hdecode.
    fold assets_path. rewrite Hstarts. fold (file_of decoded).
    rewrite Hexists, Hdir. simpl.
    assert (has_correct_case fs path_dirname path_basename fuel (file_of decoded)
              (files_assets config) = Some (Returned true)) as ->; [|done].
    apply has_correct_case_true. by exists k.
  - intros decoded k names Hdecode Hk Hne Hlisted Hdir Hout.
    unfold asset_middleware. rewrite Hdecode. fold assets_path.
    destruct (startsWith decoded assets_path); [|done].
    fold (file_of decoded).
    destruct (existsSync fs (file_of decoded) && negb (isDirectory fs (file_of decoded)));
      [|done].
    by rewrite (has_correct_case_false fs path_dirname path_basename fuel
                  (file_of decoded) (files_assets config) k names).
Qed.

Lemma asset_middleware_serves_exact_case_witness :
  example_assets 3 (request_for "/x.png") = Some [Next]
  ∧ example_assets 3 (request_for "/X.png") = Some [AssetServer "/X.png"].
Proof.
  pose proof (asset_middleware_serves_exact_case example_config example_fs
                "/_svelte_kit_assets" pathname_of (fun u => u) dirname_of
                basename_of (fun e => Some e) (fun st => st) 3)
    as Hclaim.
  split.
  - destruct (Hclaim (request_for "/x.png")) as (_ & _ & Hdiffers).
    apply (Hdiffers "/x.png" 0%nat ["X.png"]).
    + reflexivity.
    + lia.
    + intros j Hj. assert (j = 0%nat) as -> by lia. vm_compute. discriminate.
    + intros j Hj. lia.
    + reflexivity.
    + vm_compute. intros Hin. apply list_elem_of_singleton in Hin. discriminate Hin.
  - destruct (Hclaim (request_for "/X.png")) as (_ & Hserves & _).
    apply (Hserves "/X.png" 1%nat).
    + reflexivity.
    + reflexivity.
    + reflexivity.
    + reflexivity.
    + lia.
    + split; [reflexivity|].
      intros j Hj. assert (j = 0%nat) as -> by lia. split.
      * vm_compute. discriminate.
      * exists ["X.png"]. split; [reflexivity|].
        vm_compute. apply list_elem_of_singleton. reflexivity.
Defined.

(** ** The request dispatcher *)

Lemma make_hooks_keys (user_hooks : gmap string JSValue) k :
  k ∉ ["externalFetch"; "handleError"; "handle"; "getSession"] ->
  get (make_hooks user_hooks) k = JSUndefined.
Proof.
  intros Hk. unfold get, make_hooks.
  rewrite !lookup_insert_ne, lookup_empty by set_solver. done.
Qed.

Lemma check_legacy_hooks_passes (user_hooks : gmap string JSValue) :
  check_legacy_hooks (make_hooks user_hooks) = hret tt.
Proof.
  unfold check_legacy_hooks.
  rewrite !make_hooks_keys; [done| |].
  - intros Hin. repeat (apply elem_of_cons in Hin as [[=]|Hin]).
    by apply elem_of_nil in Hin.
  - intros Hin. repeat (apply elem_of_cons in Hin as [[=]|Hin]).
    by apply elem_of_nil in Hin.
Qed.

(** C2 (the code does not do this).  The [hooks] object the dispatcher
    builds has four fields only, so its [getContext] and [serverFetch] read
    as [undefined] whatever the user's hooks module exports: the check for
    removed and renamed hooks never throws, and a request served with a
    hooks module that exports [getContext] is rendered as any other. *)
Theorem legacy_hooks_pass_unnoticed :
  (∀ user_hooks : gmap string JSValue,
     get (make_hooks user_hooks) "getContext" = JSUndefined
     ∧ get (make_hooks user_hooks) "serverFetch" = JSUndefined
     ∧ check_legacy_hooks (make_hooks user_hooks) = ([], Returned tt))
  ∧ truthy (get legacy_hooks "getContext") = true
  ∧ example_modules ("/" ++ files_hooks example_config) = Returned legacy_hooks
  ∧ example_dispatch false (request_for "/about")
    = [ SetPrivateEnv {[ "SECRET" := "hunter2" ]};
        SetPublicEnv {[ "PUBLIC_API" := "https://api.example" ]};
        SetPaths "" "";
        SetResponse 200 "<h1>about</h1>" ].
Proof.
  split; [|split; [|split]].
  - intros user_hooks. split; [|split].
    + apply make_hooks_keys. intros Hin.
      repeat (apply elem_of_cons in Hin as [[=]|Hin]). by apply elem_of_nil in Hin.
    + apply make_hooks_keys. intros Hin.
      repeat (apply elem_of_cons in Hin as [[=]|Hin]). by apply elem_of_nil in Hin.
    + apply check_legacy_hooks_passes.
  - reflexivity.
  - reflexivity.
  - vm_compute. reflexivity.
Qed.

Lemma hbind_returned {A B} (a : A) (k : A -> Handler B) :
  hbind (lift (Returned a)) k = k a.
Proof. unfold hbind, lift. by destruct (k a). Qed.

Lemma hbind_hret {A B} (a : A) (k : A -> Handler B) : hbind (hret a) k = k a.
Proof. apply hbind_returned. Qed.

Lemma hbind_emit {B} (e : Effect) (k : unit -> Handler B) :
  hbind (emit e) k = ((e :: (k tt).1)%list, (k tt).2).
Proof. unfold hbind, emit. by destruct (k tt). Qed.

Section DispatchFacts.
Variable config : Config.
Variable fs : FileSystem.
Variable SVELTE_KIT_ASSETS : string.
Variable decode_pathname : string -> Completion string.
Variable resolve_path : string -> string.
Variable error_stack : string -> option string.
Variable ssrRewriteStacktrace : string -> string.
Variable ssrLoadModule : string -> Completion (gmap string JSValue).
Variable resolve_entry : string -> option string.
Variable loadEnv : string -> string -> string -> gmap string string.
Variable cwd : string.
Variable runtime_base : string.
Variable root_url : string.
Variable KitRequest : Type.
Variable getRequest : string -> IncomingMessage -> KitRequest + (option Z * option string).
Variable load_template : Completion string.
Variable respond : KitRequest -> RenderOptions -> Completion Rendered.
Variable serve_static_hit : IncomingMessage -> bool.

Local Abbreviation send := (send_rendered serve_static_hit).

Lemma try_catch_emit (e : Effect) (k : unit -> Handler unit) :
  try_catch error_stack ssrRewriteStacktrace (hbind (emit e) k)
  = e :: try_catch error_stack ssrRewriteStacktrace (k tt).
Proof. unfold hbind, emit, try_catch. by destruct (k tt) as [t []]. Qed.

Lemma send_rendered_trace req rendered :
  send req rendered
  = (if (status rendered =? 404)%Z
     then ServeStatic
          :: (if serve_static_hit req then []
              else [SetResponse (status rendered) (body rendered)])
     else [SetResponse (status rendered) (body rendered)],
     Returned tt).
Proof.
  unfold send_rendered, serve_static_handle.
  destruct (status rendered =? 404)%Z; [|done].
  simpl. by destruct (serve_static_hit req).
Qed.

Lemma send_rendered_static req rendered :
  ServeStatic ∈ (send req rendered).1 <-> status rendered = 404%Z.
Proof.
  rewrite send_rendered_trace. simpl.
  destruct (Z.eqb_spec (status rendered) 404) as [Heq|Hne].
  - split; [done|]. intros _. apply elem_of_cons. by left.
  - split; [|done]. by intros [=]%list_elem_of_singleton.
Qed.

Lemma send_rendered_body req rendered :
  SetResponse (status rendered) (body rendered) ∈ (send req rendered).1
  <-> status rendered ≠ 404%Z ∨ serve_static_hit req = false.
Proof.
  rewrite send_rendered_trace. simpl.
  destruct (Z.eqb_spec (status rendered) 404) as [Heq|Hne].
  - destruct (serve_static_hit req).
    + split; [|by intros [|]].
      intros [[=]|[]%elem_of_nil]%elem_of_cons.
    + split; [by right|]. intros _. apply elem_of_cons. right.
      by apply list_elem_of_singleton.
  - split; [by left|]. intros _. by apply list_elem_of_singleton.
Qed.

(** A request that gets as far as the render function ends with what
    [send_rendered] does with the response. *)
Lemma request_middleware_rendered req decoded env_private env_public
    user_hooks root paths_module request template rendered :
  let file := resolve_path (slice_from 1 decoded) in
  let env := get_env loadEnv cwd (mode config) (publicPrefix config) in
  decode_pathname (origin config req ++ url req) = Returned decoded ->
  (existsSync fs file && negb (isDirectory fs file))
  && (negb (fs_strict config)
      || existsb (fun dir => startsWith file dir) (fs_allow config)) = false ->
  startsWith decoded (paths_base config) = true ->
  ssrLoadModule (runtime_base ++ "/env-private.js") = Returned env_private ->
  ssrLoadModule (runtime_base ++ "/env-public.js") = Returned env_public ->
  match resolve_entry (files_hooks config) with
  | Some _ => ssrLoadModule ("/" ++ files_hooks config)
  | None => Returned ∅
  end = Returned user_hooks ->
  ssrLoadModule root_url = Returned root ->
  ssrLoadModule (runtime_base ++ "/paths.js") = Returned paths_module ->
  getRequest (origin config req) req = inl request ->
  load_template = Returned template ->
  respond request
    {| hooks := make_hooks user_hooks; public_env := public env;
       paths := (paths_base config, assets config SVELTE_KIT_ASSETS) |}
  = Returned rendered ->
  request_middleware config fs SVELTE_KIT_ASSETS decode_pathname resolve_path
    error_stack ssrRewriteStacktrace ssrLoadModule resolve_entry loadEnv cwd
    runtime_base root_url KitRequest getRequest load_template respond
    serve_static_hit req
  = ([ SetPrivateEnv (private env); SetPublicEnv (public env);
       SetPaths (paths_base config) (assets config SVELTE_KIT_ASSETS) ]
     ++ (send req rendered).1)%list.
Proof.
  intros file env Hdecode Hfile Hbase Hprivate Hpublic Hhooks Hroot Hpaths
    Hrequest Htemplate Hrespond.
  unfold request_middleware, request_handler. cbv zeta.
  rewrite Hdecode, hbind_returned. fold file. rewrite Hfile, Hbase.
  cbn [negb]. rewrite Hprivate, hbind_returned, Hpublic, hbind_returned.
  assert ((match resolve_entry (files_hooks config) with
           | Some _ => lift (ssrLoadModule ("/" ++ files_hooks config))
           | None => hret ∅
           end) = lift (Returned user_hooks)) as ->.
  { revert Hhooks. destruct (resolve_entry _); [by intros ->|by intros [= <-]]. }
  rewrite try_catch_emit. cbv beta. rewrite try_catch_emit. cbv beta.
  rewrite hbind_returned, check_legacy_hooks_passes.
  rewrite hbind_hret.
  rewrite Hroot, hbind_returned, Hpaths, hbind_returned, try_catch_emit.
  cbv beta. rewrite Hrequest, Htemplate, hbind_returned.
  fold env. rewrite Hrespond, hbind_returned.
  rewrite send_rendered_trace. done.
Qed.

End DispatchFacts.

(** C7. Once the render function has answered, the dispatcher calls the
    static-file responder exactly when the answer has status 404, and then
    sends the rendered 404 only when the responder has no file for the
    request; an answer with any other status is sent at once, and the
    static responder is not called. *)
Theorem static_fallback_exactly_on_404
    (config : Config) (fs : FileSystem) (SVELTE_KIT_ASSETS : string)
    (decode_pathname : string -> Completion string)
    (resolve_path : string -> string)
    (error_stack : string -> option string)
    (ssrRewriteStacktrace : string -> string)
    (ssrLoadModule : string -> Completion (gmap string JSValue))
    (resolve_entry : string -> option string)
    (loadEnv : string -> string -> string -> gmap string string)
    (cwd runtime_base root_url : string) (KitRequest : Type)
    (getRequest : string -> IncomingMessage -> KitRequest + (option Z * option string))
    (load_template : Completion string)
    (respond : KitRequest -> RenderOptions -> Completion Rendered)
    (serve_static_hit : IncomingMessage -> bool)
    (req : IncomingMessage) (decoded : string)
    (env_private env_public user_hooks root paths_module : gmap string JSValue)
    (request : KitRequest) (template : string) (rendered : Rendered) :
  let file := resolve_path (slice_from 1 decoded) in
  let env := get_env loadEnv cwd (mode config) (publicPrefix config) in
  let trace :=
    request_middleware config fs SVELTE_KIT_ASSETS decode_pathname resolve_path
      error_stack ssrRewriteStacktrace ssrLoadModule resolve_entry loadEnv cwd
      runtime_base root_url KitRequest getRequest load_template respond
      serve_static_hit req in
  let send := SetResponse (status rendered) (body rendered) in
  decode_pathname (origin config req ++ url req) = Returned decoded ->
  (existsSync fs file && negb (isDirectory fs file))
  && (negb (fs_strict config)
      || existsb (fun dir => startsWith file dir) (fs_allow config)) = false ->
  startsWith decoded (paths_base config) = true ->
  ssrLoadModule (runtime_base ++ "/env-private.js") = Returned env_private ->
  ssrLoadModule (runtime_base ++ "/env-public.js") = Returned env_public ->
  match resolve_entry (files_hooks config) with
  | Some _ => ssrLoadModule ("/" ++ files_hooks config)
  | None => Returned ∅
  end = Returned user_hooks ->
  ssrLoadModule root_url = Returned root ->
  ssrLoadModule (runtime_base ++ "/paths.js") = Returned paths_module ->
  getRequest (origin config req) req = inl request ->
  load_template = Returned template ->
  respond request
    {| hooks := make_hooks user_hooks; public_env := public env;
       paths := (paths_base config, assets config SVELTE_KIT_ASSETS) |}
  = Returned rendered ->
  trace
  = ([ SetPrivateEnv (private env); SetPublicEnv (public env);
       SetPaths (paths_base config) (assets config SVELTE_KIT_ASSETS) ]
     ++ (if (status rendered =? 404)%Z
         then ServeStatic :: (if serve_static_hit req then [] else [send])
         else [send]))%list
  ∧ (ServeStatic ∈ trace <-> status rendered = 404%Z)
  ∧ (send ∈ trace <-> status rendered ≠ 404%Z ∨ serve_static_hit req = false).
Proof.
  intros file env trace send Hdecode Hfile Hbase Hprivate Hpublic Hhooks Hroot
    Hpaths Hrequest Htemplate Hrespond.
  assert (Htrace : trace
            = ([ SetPrivateEnv (private env); SetPublicEnv (public env);
                 SetPaths (paths_base config) (assets config SVELTE_KIT_ASSETS) ]
               ++ (send_rendered serve_static_hit req rendered).1)%list).
  { subst trace. by eapply request_middleware_rendered. }
  split; [|split].
  - rewrite Htrace. by rewrite send_rendered_trace.
  - rewrite Htrace, elem_of_app, send_rendered_static. split; [|by right].
    intros [Hin|H]; [|done].
    repeat (apply elem_of_cons in Hin as [[=]|Hin]). by apply elem_of_nil in Hin.
  - rewrite Htrace, elem_of_app. subst send. rewrite send_rendered_body.
    split; [|by right].
    intros [Hin|H]; [|done].
    repeat (apply elem_of_cons in Hin as [[=]|Hin]). by apply elem_of_nil in Hin.
Qed.

Lemma static_fallback_exactly_on_404_witness :
  let trace := example_dispatch false (request_for "/missing") in
  trace
  = [ SetPrivateEnv {[ "SECRET" := "hunter2" ]};
      SetPublicEnv {[ "PUBLIC_API" := "https://api.example" ]};
      SetPaths "" ""; ServeStatic; SetResponse 404 "Not found" ]
  ∧ (ServeStatic ∈ trace <-> 404%Z = 404%Z)
  ∧ (SetResponse 404 "Not found" ∈ trace <-> 404%Z ≠ 404%Z ∨ false = false).
Proof.
  pose proof (static_fallback_exactly_on_404 example_config example_fs
                "/_svelte_kit_assets" pathname_of (fun f => "/app/" ++ f)
                (fun e => Some e) (fun st => st) example_modules
                (fun _ => Some "src/hooks.js") example_env "/app"
                "/@fs/app/node_modules/@sveltejs/kit/src/runtime"
                "/.svelte-kit/generated/root.svelte"
                string (fun _ req => inl (url req)) (Returned "%sveltekit.body%")
                example_respond (fun _ => false) (request_for "/missing")
                "/missing" ∅ ∅ legacy_hooks ∅ ∅ "/missing" "%sveltekit.body%"
                {| status := 404; body := "Not found" |}
                eq_refl eq_refl eq_refl eq_refl eq_refl eq_refl eq_refl eq_refl
                eq_refl eq_refl eq_refl)
    as (Htrace & Hstatic & Hsend).
  intros trace. split; [|split].
  - etransitivity; [exact Htrace|]. vm_compute. reflexivity.
  - exact Hstatic.
  - exact Hsend.
Defined.

(* ===================================================================== *)
(** * Part III: further properties of the code                            *)
(* ===================================================================== *)

(** ** More on the build-graph checker *)

(** X1. A chain the build-graph checker returns ends at the first
    forbidden module on its way: its last element is forbidden and no
    element before it is. *)
Theorem rollup_chain_ends_at_first_forbidden
    (normalizePath : string -> string)
    (node_getter : string -> option Rollup.ModuleInfo)
    (illegal_imports : gset string) (fuel : nat) (node : Rollup.ModuleInfo)
    (dynamic : bool) (seen seen' : gset string) (chain : list ImportNode) :
  find_illegal_rollup_imports normalizePath node_getter illegal_imports
    fuel node dynamic seen = Some (Some chain, seen') ->
  ∃ front final,
    chain = (front ++ [final])%list
    ∧ name final ∈ illegal_imports
    ∧ ∀ e, e ∈ front -> name e ∉ illegal_imports.
Proof.
  intros Hfind.
  destruct (find_chain_shape _ _ _ _ _ _ _ _ _ Hfind)
    as (front & final & -> & Hfinal & Hfront).
  exists front, final. split; [done|]. split; [done|].
  by apply Forall_forall.
Qed.

Lemma rollup_chain_ends_at_first_forbidden_witness :
  ∃ front final,
    [ {| name := "A"; dynamic := false |}; {| name := "B"; dynamic := false |};
      {| name := "C"; dynamic := true |} ] = (front ++ [final])%list
    ∧ name final ∈ ({[ "C" ]} : gset string)
    ∧ ∀ e, e ∈ front -> name e ∉ ({[ "C" ]} : gset string).
Proof.
  apply (rollup_chain_ends_at_first_forbidden normalized
           (getModuleInfo dynamic_tail) {[ "C" ]} 4 (module_ "A" ["B"] [])
           false ∅ {[ "A"; "B"; "C" ]}).
  vm_compute. reflexivity.
Defined.

(** X2. The modules of a returned chain are pairwise different and none of
    them was in [seen] when the call began; the call leaves [seen] grown by
    exactly the modules of the chain.  A call that answers [null] leaves
    [seen] as it found it. *)
Theorem rollup_seen_bookkeeping
    (normalizePath : string -> string)
    (node_getter : string -> option Rollup.ModuleInfo)
    (illegal_imports : gset string) (fuel : nat) (node : Rollup.ModuleInfo)
    (dynamic : bool) (seen seen' : gset string)
    (result : option (list ImportNode)) :
  find_illegal_rollup_imports normalizePath node_getter illegal_imports
    fuel node dynamic seen = Some (result, seen') ->
  match result with
  | None => seen' = seen
  | Some chain =>
      NoDup (name <$> chain)
      ∧ (∀ x, x ∈ name <$> chain -> x ∉ seen)
      ∧ seen' = seen ∪ list_to_set (name <$> chain)
  end.
Proof.
  destruct result as [chain|].
  - apply find_chain_stack.
  - intros Hfind.
    exact (find_restores normalizePath node_getter illegal_imports fuel dynamic
             node seen seen' Hfind).
Qed.

Lemma rollup_seen_bookkeeping_witness :
  (NoDup ["A"; "B"; "C"]
   ∧ (∀ x, x ∈ ["A"; "B"; "C"] -> x ∉ (∅ : gset string))
   ∧ ({[ "A"; "B"; "C" ]} : gset string) = ∅ ∪ list_to_set ["A"; "B"; "C"])
  ∧ ({[ "B" ]} : gset string) = {[ "B" ]}.
Proof.
  split.
  - apply (rollup_seen_bookkeeping normalized (getModuleInfo dynamic_tail)
             {[ "C" ]} 4 (module_ "A" ["B"] []) false ∅ {[ "A"; "B"; "C" ]}
             (Some [ {| name := "A"; dynamic := false |};
                     {| name := "B"; dynamic := false |};
                     {| name := "C"; dynamic := true |} ])).
    vm_compute. reflexivity.
  - apply (rollup_seen_bookkeeping normalized (getModuleInfo with_cycle)
             {[ "Z" ]} 4 (module_ "A" ["B"] []) false {[ "B" ]} {[ "B" ]} None).
    vm_compute. reflexivity.
Defined.

(** ** More on the dev-graph checker *)

Section ViteMore.
Variable normalizePath : string -> string.
Variable extname : string -> string.
Variable deref : Vite.ref -> option Vite.ModuleNode.
Variable illegal_imports : gset string.
Variable module_types : gset string.

Local Abbreviation vfind :=
  (find_illegal_vite_imports normalizePath extname deref illegal_imports module_types).
Local Abbreviation vscan := (scan_vite_imports deref).
Local Abbreviation vname := (vite_name normalizePath).
Local Abbreviation vchain :=
  (vite_chain normalizePath extname deref illegal_imports module_types).
Local Abbreviation vavoiding :=
  (vite_reaches_avoiding normalizePath extname deref illegal_imports module_types).

(** One call, by the canonical id of the node. *)
Lemma vfind_step fuel node seen :
  vfind (S fuel) node seen
  = match vname node with
    | None => Some (None, seen)
    | Some x =>
        if bool_decide (x ∈ seen) || negb (bool_decide (extname x ∈ module_types))
        then Some (None, seen)
        else if negb (String.eqb x "") && bool_decide (x ∈ illegal_imports)
        then Some (Some [ {| name := x; dynamic := false |} ], seen ∪ {[ x ]})
        else
          match vscan (vfind fuel) (Vite.importedModules node) (seen ∪ {[ x ]}) with
          | None => None
          | Some (Some chain, s) =>
              Some (Some ({| name := x; dynamic := false |} :: chain), s)
          | Some (None, s) => Some (None, s ∖ {[ x ]})
          end
    end.
Proof.
  unfold vite_name. simpl. destruct (Vite.id node) as [[|a i]|]; reflexivity.
Qed.

Lemma vscan_null visit children seen s' :
  vite_restores visit ->
  vscan visit children seen = Some (None, s') ->
  s' = seen ∧
  ∀ r c, r ∈ children -> deref r = Some c -> visit c seen = Some (None, seen).
Proof.
  intros Hres. induction children as [|r rest IH]; simpl.
  - intros [= <-]. split; [done|]. intros r c Hr. by apply elem_of_nil in Hr.
  - destruct (deref r) as [child|] eqn:Hget.
    + destruct (visit child seen) as [[[chain|] s1]|] eqn:Hv; try done.
      pose proof (Hres _ _ _ Hv) as ->. intros Hscan.
      destruct (IH Hscan) as [-> Hall]. split; [done|].
      intros j c [->|Hj]%elem_of_cons Hc; [|eauto].
      rewrite Hget in Hc. by injection Hc as <-.
    + intros Hscan. destruct (IH Hscan) as [-> Hall]. split; [done|].
      intros j c [->|Hj]%elem_of_cons Hc; [congruence|eauto].
Qed.

Lemma vscan_found visit children seen chain s' :
  vite_restores visit ->
  vscan visit children seen = Some (Some chain, s') ->
  ∃ r c, r ∈ children ∧ deref r = Some c ∧ visit c seen = Some (Some chain, s').
Proof.
  intros Hres. induction children as [|r rest IH]; simpl; [done|].
  destruct (deref r) as [child|] eqn:Hget.
  - destruct (visit child seen) as [[[ch|] s1]|] eqn:Hv; try done.
    + intros [= <- <-]. exists r, child. rewrite elem_of_cons. auto.
    + pose proof (Hres _ _ _ Hv) as ->. intros Hscan.
      destruct (IH Hscan) as (j & c & Hj & Hc & Hvc).
      exists j, c. rewrite elem_of_cons. auto.
  - intros Hscan. destruct (IH Hscan) as (j & c & Hj & Hc & Hvc).
    exists j, c. rewrite elem_of_cons. auto.
Qed.

Lemma vscan_total visit children seen :
  vite_restores visit ->
  (∀ r c, r ∈ children -> deref r = Some c -> is_Some (visit c seen)) ->
  is_Some (vscan visit children seen).
Proof.
  intros Hres. induction children as [|r rest IH]; simpl; intros Hall; [by eexists|].
  destruct (deref r) as [child|] eqn:Hget.
  - destruct (Hall r child) as [[[ch|] s1] Hv]; [by left|done| |].
    + rewrite Hv. by eexists.
    + rewrite Hv. pose proof (Hres _ _ _ Hv) as ->.
      apply IH. intros j c Hj. apply Hall. by right.
  - apply IH. intros j c Hj. apply Hall. by right.
Qed.

Lemma vfind_restores fuel : vite_restores (vfind fuel).
Proof.
  induction fuel as [|fuel IH]; intros c s s'; [done|].
  rewrite vfind_step. destruct (vname c) as [x|]; [|by intros [= <-]].
  destruct (bool_decide (x ∈ s)) eqn:Hseen; simpl; [by intros [= <-]|].
  destruct (negb _); [by intros [= <-]|].
  destruct (_ && _); [done|].
  destruct (vscan _ _ _) as [[[ch|] s1]|] eqn:Hs; try done.
  apply vscan_null in Hs as [-> _]; [|done].
  intros [= <-]. apply bool_decide_eq_false in Hseen. set_solver.
Qed.

Lemma vfind_sound fuel node seen chain s' :
  vfind fuel node seen = Some (Some chain, s') -> vchain node chain.
Proof.
  revert node seen chain s'.
  induction fuel as [|fuel IH]; intros node seen chain s'; [done|].
  rewrite vfind_step. destruct (vname node) as [x|] eqn:Hname; [|done].
  destruct (bool_decide (x ∈ seen)); simpl; [done|].
  destruct (bool_decide (extname x ∈ module_types)) eqn:Hext; simpl; [|done].
  apply bool_decide_eq_true in Hext.
  destruct (negb (String.eqb x "") && bool_decide (x ∈ illegal_imports)) eqn:Hill.
  { intros [= <- <-].
    apply andb_true_iff in Hill as [Hne Hin%bool_decide_eq_true].
    apply negb_true_iff, String.eqb_neq in Hne. by eapply vite_chain_end. }
  destruct (vscan _ _ _) as [[[ch|] s1]|] eqn:Hs; try done.
  intros [= <- <-].
  apply vscan_found in Hs as (r & c & Hr & Hc & Hv); [|apply vfind_restores].
  eapply vite_chain_step; [done|done|by exists r|by eapply IH].
Qed.

(** What a chain of the dev-graph checker looks like. *)
Lemma vfind_chain_shape fuel node seen chain s' :
  vfind fuel node seen = Some (Some chain, s') ->
  Forall (fun e => extname (name e) ∈ module_types) chain
  ∧ ∃ front final,
      chain = (front ++ [final])%list
      ∧ name final ≠ "" ∧ name final ∈ illegal_imports
      ∧ Forall (fun e => name e = "" ∨ name e ∉ illegal_imports) front.
Proof.
  revert node seen chain s'.
  induction fuel as [|fuel IH]; intros node seen chain s'; [done|].
  rewrite vfind_step. destruct (vname node) as [x|] eqn:Hname; [|done].
  destruct (bool_decide (x ∈ seen)); simpl; [done|].
  destruct (bool_decide (extname x ∈ module_types)) eqn:Hext; simpl; [|done].
  apply bool_decide_eq_true in Hext.
  destruct (negb (String.eqb x "") && bool_decide (x ∈ illegal_imports)) eqn:Hill.
  { intros [= <- <-].
    apply andb_true_iff in Hill as [Hne Hin%bool_decide_eq_true].
    apply negb_true_iff, String.eqb_neq in Hne.
    split; [by repeat constructor|].
    by exists [], {| name := x; dynamic := false |}. }
  destruct (vscan _ _ _) as [[[ch|] s1]|] eqn:Hs; try done.
  intros [= <- <-].
  apply vscan_found in Hs as (r & c & Hr & Hc & Hv); [|apply vfind_restores].
  destruct (IH _ _ _ _ Hv) as (Hall & front & final & -> & Hne & Hfinal & Hfront).
  split; [by constructor|].
  exists ({| name := x; dynamic := false |} :: front), final.
  split; [done|]. split; [done|]. split; [done|].
  constructor; [|done]. simpl.
  apply andb_false_iff in Hill as [Hx|Hx].
  - left. by apply negb_false_iff, String.eqb_eq in Hx.
  - right. by apply bool_decide_eq_false in Hx.
Qed.

(** A module without canonical id, or whose extension is not analysed, is
    passed over: the answer is [null] and [seen] stays as it is. *)
Lemma vfind_passes_over fuel node seen :
  match vname node with
  | None => True
  | Some x => extname x ∉ module_types
  end ->
  vfind (S fuel) node seen = Some (None, seen).
Proof.
  rewrite vfind_step. destruct (vname node) as [x|]; [|done].
  intros Hext. rewrite (bool_decide_eq_false_2 _ Hext). simpl.
  by rewrite orb_true_r.
Qed.

Lemma omap_vname_length (l : list Vite.ModuleNode) :
  (List.length (omap vname l) ≤ List.length l)%nat.
Proof.
  induction l as [|y l IH]; [simpl; lia|].
  change (omap vname (y :: l))
    with (match vname y with
          | Some x => x :: omap vname l
          | None => omap vname l
          end).
  destruct (vname y); simpl; lia.
Qed.

Lemma list_to_set_size (l : list string) :
  (size (list_to_set l : gset string) ≤ List.length l)%nat.
Proof.
  induction l as [|x l IH].
  - rewrite list_to_set_nil, size_empty. simpl. lia.
  - rewrite list_to_set_cons, size_union_alt, size_singleton.
    assert (size (list_to_set l ∖ {[x]} : gset string)
            ≤ size (list_to_set l : gset string))%nat
      by (apply subseteq_size; set_solver).
    simpl. lia.
Qed.

Section FiniteViteGraph.
Variable nodes : list Vite.ModuleNode.
Hypothesis graph : vite_graph normalizePath deref nodes.

Local Abbreviation names := (vite_names normalizePath nodes).

Lemma vite_closed_edge n c : n ∈ nodes -> vite_edge deref n c -> c ∈ nodes.
Proof.
  destruct graph as [Hclosed _]. intros Hn (r & Hr & Hc).
  rewrite Forall_forall in Hclosed.
  specialize (Hclosed n Hn). rewrite Forall_forall in Hclosed.
  specialize (Hclosed r Hr). by rewrite Hc in Hclosed.
Qed.

Lemma vite_canonical_gen (l : list Vite.ModuleNode) n m x :
  NoDup (omap vname l) -> n ∈ l -> m ∈ l ->
  vname n = Some x -> vname m = Some x -> n = m.
Proof.
  induction l as [|y l IH]; [by intros _ ?%elem_of_nil|].
  simpl. intros Hnd Hn Hm Hxn Hxm.
  assert (Hin : ∀ k, k ∈ l -> vname k = Some x -> x ∈ omap vname l).
  { intros k Hk Hxk. apply list_elem_of_omap. by exists k. }
  apply elem_of_cons in Hn as [->|Hn]; apply elem_of_cons in Hm as [->|Hm].
  - done.
  - rewrite Hxn in Hnd. apply NoDup_cons in Hnd as [Hy _].
    destruct Hy. by eapply Hin.
  - rewrite Hxm in Hnd. apply NoDup_cons in Hnd as [Hy _].
    destruct Hy. by eapply Hin.
  - apply IH; try done. destruct (vname y); [|done].
    by apply NoDup_cons in Hnd as [_ Hnd].
Qed.

Lemma vite_canonical n m x :
  n ∈ nodes -> m ∈ nodes -> vname n = Some x -> vname m = Some x -> n = m.
Proof. destruct graph as [_ Hcan]. by apply vite_canonical_gen. Qed.

Lemma vite_names_size : (size names ≤ List.length nodes)%nat.
Proof.
  unfold vite_names. pose proof (omap_vname_length nodes).
  pose proof (list_to_set_size (omap vname nodes)). lia.
Qed.

Lemma vfind_total fuel node seen :
  node ∈ nodes -> (size (names ∖ seen) < fuel)%nat ->
  is_Some (vfind fuel node seen).
Proof.
  revert node seen.
  induction fuel as [|fuel IH]; intros node seen Hnode Hfuel; [lia|].
  rewrite vfind_step. destruct (vname node) as [x|] eqn:Hname; [|by eexists].
  destruct (bool_decide (x ∈ seen)) eqn:Hseen; simpl; [by eexists|].
  apply bool_decide_eq_false in Hseen.
  destruct (negb _); [by eexists|].
  destruct (_ && _); [by eexists|].
  assert (Hless : (size (names ∖ (seen ∪ {[x]})) < fuel)%nat).
  { assert (names ∖ (seen ∪ {[x]}) ⊂ names ∖ seen) as Hsub%subset_size; [|lia].
    assert (x ∈ names).
    { unfold vite_names. apply elem_of_list_to_set, list_elem_of_omap.
      by exists node. }
    set_solver. }
  destruct (vscan_total (vfind fuel) (Vite.importedModules node) (seen ∪ {[x]}))
    as [[[ch|] s1] Hs]; [apply vfind_restores| | |].
  - intros r c Hr Hc. apply IH; [|done].
    apply (vite_closed_edge node); [done|]. by exists r.
  - rewrite Hs. by eexists.
  - rewrite Hs. by eexists.
Qed.

Lemma vavoiding_outside seen node x :
  vavoiding seen node -> vname node = Some x -> x ∉ seen.
Proof. destruct 1; intros Hx; congruence. Qed.

Lemma vavoiding_split seen node x m :
  node ∈ nodes -> m ∈ nodes -> vname node = Some x ->
  vavoiding seen m ->
  vavoiding (seen ∪ {[x]}) m ∨
  (x ≠ "" ∧ x ∈ illegal_imports) ∨
  ∃ c, vite_edge deref node c ∧ vavoiding (seen ∪ {[x]}) c.
Proof.
  intros Hnode Hm Hx Havoid.
  induction Havoid as [m y Hy Hext Hout Hne Hill|m y c Hy Hext Hout Hedge Hc IH].
  - destruct (decide (y = x)) as [->|Hdiff].
    + right; left. done.
    + left. eapply vite_avoid_here; try done. set_solver.
  - destruct IH as [Hc'|[Hill|Hvia]]; [by eapply vite_closed_edge| |by auto|by auto].
    destruct (decide (y = x)) as [->|Hdiff].
    + right; right. exists c.
      by rewrite (vite_canonical m node x Hm Hnode Hy Hx) in Hedge.
    + left. eapply vite_avoid_step; try done. set_solver.
Qed.

Lemma vfind_complete fuel node seen s' :
  node ∈ nodes ->
  vfind fuel node seen = Some (None, s') -> ¬ vavoiding seen node.
Proof.
  revert node seen s'.
  induction fuel as [|fuel IH]; intros node seen s' Hnode; [done|].
  rewrite vfind_step. destruct (vname node) as [x|] eqn:Hname.
  2:{ intros _ Havoid. destruct Havoid; congruence. }
  destruct (bool_decide (x ∈ seen)) eqn:Hseen; simpl.
  { apply bool_decide_eq_true in Hseen.
    intros _ Havoid. by apply (vavoiding_outside _ _ x) in Havoid. }
  destruct (bool_decide (extname x ∈ module_types)) eqn:Hext; simpl.
  2:{ apply bool_decide_eq_false in Hext.
      intros _ Havoid. destruct Havoid; congruence. }
  destruct (negb (String.eqb x "") && bool_decide (x ∈ illegal_imports)) eqn:Hill;
    [done|].
  destruct (vscan _ _ _) as [[[ch|] s1]|] eqn:Hs; try done.
  apply vscan_null in Hs as [-> Hkids]; [|apply vfind_restores].
  intros _ Havoid.
  destruct (vavoiding_split seen node x node Hnode Hnode Hname Havoid)
    as [Hself|[[Hne Hin]|(c & Hedge & Hc)]].
  - apply (vavoiding_outside _ _ x) in Hself; [|done]. set_solver.
  - apply andb_false_iff in Hill as [Hx|Hx].
    + apply negb_false_iff, String.eqb_eq in Hx. done.
    + by apply bool_decide_eq_false in Hx.
  - assert (c ∈ nodes) by (by eapply vite_closed_edge).
    destruct Hedge as (r & Hr & Hget).
    eapply IH; [|apply (Hkids r c Hr Hget)|]; done.
Qed.

Lemma vfind_decides fuel root :
  root ∈ nodes -> (List.length nodes < fuel)%nat ->
  (∃ chain s, vfind fuel root ∅ = Some (Some chain, s) ∧ vchain root chain)
  ∨ (vfind fuel root ∅ = Some (None, ∅) ∧ ¬ vavoiding ∅ root).
Proof.
  intros Hroot Hfuel.
  assert (size (names ∖ ∅) < fuel)%nat as Hsize.
  { pose proof vite_names_size.
    assert (size (names ∖ ∅) ≤ size names)%nat
      by (apply subseteq_size; set_solver).
    lia. }
  destruct (vfind_total fuel root ∅ Hroot Hsize) as [[[chain|] s] Hr].
  - left. exists chain, s. split; [done|]. by eapply vfind_sound.
  - right. pose proof (vfind_restores _ _ _ _ Hr) as ->. split; [done|].
    by eapply vfind_complete.
Qed.

End FiniteViteGraph.

Lemma vchain_avoiding node chain : vchain node chain -> vavoiding ∅ node.
Proof.
  induction 1 as [n x Hname Hext Hne Hill|n x c rest Hname Hext Hedge _ IH].
  - eapply vite_avoid_here; try done.
  - eapply vite_avoid_step; try done.
Qed.

End ViteMore.

(** X3. A chain the dev-graph checker returns is a path of imported
    modules in the live graph: every module on it has an analysed
    extension, its last module is forbidden (and has a non-empty name),
    and no module before the last is a forbidden one. *)
Theorem vite_chain_is_an_analysed_path
    (normalizePath extname : string -> string)
    (deref : Vite.ref -> option Vite.ModuleNode)
    (illegal_imports module_types : gset string) (fuel : nat)
    (node : Vite.ModuleNode) (seen seen' : gset string)
    (chain : list ImportNode) :
  find_illegal_vite_imports normalizePath extname deref illegal_imports
    module_types fuel node seen = Some (Some chain, seen') ->
  vite_chain normalizePath extname deref illegal_imports module_types node chain
  ∧ (∀ e, e ∈ chain -> extname (name e) ∈ module_types)
  ∧ ∃ front final,
      chain = (front ++ [final])%list
      ∧ name final ≠ "" ∧ name final ∈ illegal_imports
      ∧ ∀ e, e ∈ front -> name e = "" ∨ name e ∉ illegal_imports.
Proof.
  intros Hfind. split; [by eapply vfind_sound|].
  destruct (vfind_chain_shape _ _ _ _ _ _ _ _ _ _ Hfind)
    as (Hall & front & final & -> & Hne & Hfinal & Hfront).
  split; [by apply Forall_forall|].
  exists front, final. repeat split; try done. by apply Forall_forall.
Qed.

Lemma vite_chain_is_an_analysed_path_witness :
  let chain := [ {| name := "/src/page.js"; dynamic := false |};
                 {| name := "/src/secret.js"; dynamic := false |} ] in
  vite_chain normalized extname_of live_graph {[ "/src/secret.js" ]}
    (get_module_types []) page_node chain
  ∧ (∀ e, e ∈ chain -> extname_of (name e) ∈ get_module_types [])
  ∧ ∃ front final,
      chain = (front ++ [final])%list
      ∧ name final ≠ "" ∧ name final ∈ ({[ "/src/secret.js" ]} : gset string)
      ∧ ∀ e, e ∈ front ->
          name e = "" ∨ name e ∉ ({[ "/src/secret.js" ]} : gset string).
Proof.
  apply (vite_chain_is_an_analysed_path normalized extname_of live_graph
           {[ "/src/secret.js" ]} (get_module_types []) 3 page_node ∅
           {[ "/src/page.js"; "/src/secret.js" ]}).
  vm_compute. reflexivity.
Defined.

(** The dev-graph checker passes over a module whose [id] is [null]
    or empty, or whose extension is not among the module types: the
    answer is [null] and [seen] is untouched, even when the module itself
    is in the forbidden set. *)
Theorem vite_passes_over_unanalysed_modules
    (normalizePath extname : string -> string)
    (deref : Vite.ref -> option Vite.ModuleNode)
    (illegal_imports module_types : gset string) (fuel : nat)
    (node : Vite.ModuleNode) (seen : gset string) :
  Vite.id node = None
  ∨ Vite.id node = Some ""
  ∨ (∃ i, Vite.id node = Some i ∧ extname (normalizePath i) ∉ module_types) ->
  find_illegal_vite_imports normalizePath extname deref illegal_imports
    module_types (S fuel) node seen = Some (None, seen).
Proof.
  intros Hnode. apply vfind_passes_over. unfold vite_name.
  destruct Hnode as [->|[->|(i & -> & Hext)]]; [done|done|].
  by destruct i.
Qed.

Lemma vite_passes_over_unanalysed_modules_witness :
  find_illegal_vite_imports normalized extname_of live_graph
    {[ "/src/app.css" ]} (get_module_types []) 1 css_dep ∅ = Some (None, ∅).
Proof.
  apply (vite_passes_over_unanalysed_modules normalized extname_of live_graph
           {[ "/src/app.css" ]} (get_module_types []) 0 css_dep ∅).
  right; right. exists "/src/app.css". split; [reflexivity|].
  vm_compute. intros H. discriminate H.
Defined.

(** X4. On a finite live graph in which a canonical id names one module,
    and with fuel above the number of modules,
    [prevent_illegal_vite_imports] throws exactly when a forbidden module
    is reachable from the node along imported modules that all have a
    canonical id with an analysed extension (the defaults or the
    configured ones); otherwise it returns. *)
Theorem prevent_illegal_vite_imports_iff_reachable
    (path_join path_relative : string -> string -> string) (cwd : string)
    (normalizePath extname : string -> string)
    (deref : Vite.ref -> option Vite.ModuleNode)
    (nodes : list Vite.ModuleNode) (root : Vite.ModuleNode)
    (illegal_imports : gset string) (module_types : list string)
    (out_dir : string) (fuel : nat) :
  vite_graph normalizePath deref nodes ->
  root ∈ nodes ->
  (List.length nodes < fuel)%nat ->
  let outcome :=
    prevent_illegal_vite_imports path_join path_relative cwd normalizePath
      extname deref fuel root illegal_imports module_types out_dir in
  let reachable :=
    vite_reaches_avoiding normalizePath extname deref illegal_imports
      (get_module_types module_types) ∅ root in
  ((∃ message, outcome = Some (Threw message)) <-> reachable)
  ∧ (¬ reachable -> outcome = Some (Returned tt)).
Proof.
  intros Hgraph Hroot Hfuel outcome reachable. subst outcome reachable.
  unfold prevent_illegal_vite_imports.
  destruct (vfind_decides normalizePath extname deref illegal_imports
              (get_module_types module_types) nodes Hgraph fuel root Hroot Hfuel)
    as [(chain & s & -> & Hchain)|[-> Hnone]].
  - apply vchain_avoiding in Hchain. split; [|done].
    split; [done|]. intros _. by eexists.
  - split; [|done]. split; [by intros [message [=]]|done].
Qed.

Lemma through_css_is_a_graph : vite_graph normalized through_css_graph through_css.
Proof. apply (bool_decide_unpack _). vm_compute. exact I. Qed.

Lemma prevent_illegal_vite_imports_iff_reachable_witness :
  let outcome :=
    prevent_illegal_vite_imports join_with_slash relative_as_is "/app" normalized
      extname_of through_css_graph 4
      {| Vite.id := Some "/src/page.js"; Vite.url := "/src/page.js";
         Vite.file := Some "/src/page.js"; Vite.importedModules := [1] |}
      {[ "/src/secret.js" ]} [] "/app/.svelte-kit" in
  let reachable :=
    vite_reaches_avoiding normalized extname_of through_css_graph
      {[ "/src/secret.js" ]} (get_module_types []) ∅
      {| Vite.id := Some "/src/page.js"; Vite.url := "/src/page.js";
         Vite.file := Some "/src/page.js"; Vite.importedModules := [1] |} in
  ((∃ message, outcome = Some (Threw message)) <-> reachable)
  ∧ (¬ reachable -> outcome = Some (Returned tt)).
Proof.
  apply (prevent_illegal_vite_imports_iff_reachable join_with_slash
           relative_as_is "/app" normalized extname_of through_css_graph
           through_css).
  - exact through_css_is_a_graph.
  - apply (bool_decide_unpack _). vm_compute. exact I.
  - simpl. lia.
Defined.

(** The forbidden module behind the stylesheet goes unreported. *)
Example through_css_passes :
  prevent_illegal_vite_imports join_with_slash relative_as_is "/app" normalized
    extname_of through_css_graph 4
    {| Vite.id := Some "/src/page.js"; Vite.url := "/src/page.js";
       Vite.file := Some "/src/page.js"; Vite.importedModules := [1] |}
    {[ "/src/secret.js" ]} [] "/app/.svelte-kit"
  = Some (Returned tt).
Proof. vm_compute. reflexivity. Qed.

(** ** Strings *)

Lemma string_prefix_app (a b : string) : String.prefix a (a ++ b) = true.
Proof.
  induction a as [|c a IH]; simpl; [by destruct b|].
  destruct (Ascii.ascii_dec c c); [done|congruence].
Qed.

Lemma slice_from_app (a b : string) : slice_from (String.length a) (a ++ b) = b.
Proof. induction a as [|c a IH]; simpl; [by destruct b|done]. Qed.

Lemma string_length_app (a b : string) :
  String.length (a ++ b) = (String.length a + String.length b)%nat.
Proof. induction a as [|c a IH]; simpl; [done|by rewrite IH]. Qed.

Lemma slice_from_split (n : nat) (s : string) :
  (n ≤ String.length s)%nat ->
  ∃ stem, s = stem ++ slice_from n s.
Proof.
  revert s. induction n as [|n IH]; intros s Hn; simpl.
  - by exists "".
  - destruct s as [|c s]; simpl in *; [lia|].
    destruct (IH s ltac:(lia)) as [stem Hstem].
    exists (String c stem).
    change (String c s = String c (stem ++ slice_from n s)). by f_equal.
Qed.

Lemma endsWith_iff (s suffix : string) :
  endsWith s suffix = true <-> ∃ stem, s = stem ++ suffix.
Proof.
  unfold endsWith. rewrite andb_true_iff, Nat.leb_le, String.eqb_eq. split.
  - intros [Hlen Hslice].
    destruct (slice_from_split (String.length s - String.length suffix) s)
      as [stem Hstem]; [lia|].
    exists stem. by rewrite <- Hslice.
  - intros [stem ->]. rewrite string_length_app. split; [lia|].
    replace (String.length stem + String.length suffix - String.length suffix)%nat
      with (String.length stem) by lia.
    apply slice_from_app.
Qed.

Lemma last_map {A B} (f : A -> B) (l : list A) :
  last (map f l) = f <$> last l.
Proof.
  induction l as [|x [|y l] IH]; done.
Qed.

(** ** The error message *)

(** X5. In the message of an illegal import, a module under
    [<out_dir>/runtime/env] is shown with the [$env] alias in place of
    that directory: when the forbidden module at the end of the chain is
    [<out_dir>/runtime/env<rest>], the message reads
    "Cannot import $env<rest> into client-side code:" and then the
    listing. *)
Theorem env_modules_are_shown_by_alias
    (path_join path_relative : string -> string -> string)
    (cwd out_dir rest : string) (d : bool) (front : list ImportNode) :
  let app := path_join out_dir "runtime/env" in
  rewrite_name path_relative cwd app {| name := app ++ rest; dynamic := d |}
  = {| name := "$env" ++ rest; dynamic := d |}
  ∧ ∃ listing,
      format_illegal_import_chain path_join path_relative cwd
        (front ++ [ {| name := app ++ rest; dynamic := d |} ])%list out_dir
      = "Cannot import " ++ ("$env" ++ rest) ++ " into client-side code:"
        ++ newline ++ listing.
Proof.
  intros app.
  assert (Hname : rewrite_name path_relative cwd app
                    {| name := app ++ rest; dynamic := d |}
                  = {| name := "$env" ++ rest; dynamic := d |}).
  { unfold rewrite_name. simpl. by rewrite string_prefix_app, slice_from_app. }
  split; [done|].
  unfold format_illegal_import_chain. fold app.
  rewrite last_map, last_snoc. simpl. rewrite Hname. simpl. by eexists.
Qed.

(** ** The environment, with an empty prefix *)

(** X6. With an empty public prefix every loaded variable is public and
    the private record is empty. *)
Theorem get_env_with_empty_prefix
    (loadEnv : string -> string -> string -> gmap string string)
    (cwd mode : string) :
  get_env loadEnv cwd mode ""
  = {| public := loadEnv mode cwd ""; private := ∅ |}.
Proof.
  unfold get_env. f_equal.
  - apply map_eq. intros k. apply option_eq. intros v.
    rewrite filtered_entries_lookup. unfold startsWith. simpl.
    split; [by intros [H _]|]. intros H. split; [done|]. by destruct k.
  - apply map_eq. intros k. apply option_eq. intros v.
    rewrite filtered_entries_lookup, lookup_empty. unfold startsWith. simpl.
    split; [|done]. intros [_ H]. by destruct k.
Qed.

(** ** Styles *)

(** X7. [style_pattern] accepts a file name exactly when it ends in a dot
    and one of css, less, sass, scss, styl, stylus, pcss, postcss; a
    dependency without a file ([null]) is not accepted. *)
Theorem style_pattern_accepts_style_extensions (file : string) :
  (style_pattern_test (Some file) = true
   <-> ∃ stem ext, ext ∈ style_extensions ∧ file = stem ++ "." ++ ext)
  ∧ style_pattern_test None = false.
Proof.
  split; [|reflexivity].
  unfold style_pattern_test. simpl default. rewrite existsb_exists. split.
  - intros (ext & Hext%list_elem_of_In & [stem Hstem]%endsWith_iff).
    by exists stem, ext.
  - intros (stem & ext & Hext & ->). exists ext.
    split; [by apply list_elem_of_In|]. apply endsWith_iff. by exists stem.
Qed.

(** The ordered record and the map of [inline_styles] hold the same
    entries, and the record has each key once. *)
Lemma assign_property_keys (styles : list (string * JSValue)) key value :
  (assign_property styles key value).*1
  = if decide (key ∈ styles.*1) then styles.*1 else (styles.*1 ++ [key])%list.
Proof.
  induction styles as [|[k v] rest IH]; csimpl; [done|].
  destruct (String.eqb_spec k key) as [->|Hne]; csimpl.
  - rewrite decide_True; [done|]. apply elem_of_cons. by left.
  - rewrite IH. destruct (decide (key ∈ rest.*1)) as [Hin|Hout].
    + rewrite decide_True; [done|]. apply elem_of_cons. by right.
    + rewrite decide_False; [done|]. intros [->|Hin]%elem_of_cons; done.
Qed.

Lemma assign_property_NoDup (styles : list (string * JSValue)) key value :
  NoDup styles.*1 -> NoDup (assign_property styles key value).*1.
Proof.
  intros Hnd. rewrite assign_property_keys.
  destruct (decide (key ∈ styles.*1)) as [Hin|Hout]; [done|].
  apply NoDup_app. split; [done|]. split; [|apply NoDup_singleton].
  intros k Hk ->%list_elem_of_singleton. done.
Qed.

Lemma assign_property_to_map (styles : list (string * JSValue)) key value :
  (list_to_map (assign_property styles key value) : gmap string JSValue)
  = <[ key := value ]> (list_to_map styles).
Proof.
  induction styles as [|[k v] rest IH]; simpl; [done|].
  destruct (String.eqb_spec k key) as [->|Hne]; simpl.
  - by rewrite insert_insert_eq.
  - rewrite IH. by apply insert_insert_ne.
Qed.

Lemma inline_styles_entries_spec
    (ssrLoadModule : string -> Completion (gmap string JSValue))
    (searchParams : string -> list (string * string))
    (deps : list Vite.ModuleNode) :
  NoDup (inline_styles_entries ssrLoadModule searchParams deps).*1
  ∧ list_to_map (inline_styles_entries ssrLoadModule searchParams deps)
    = inline_styles ssrLoadModule searchParams deps.
Proof.
  unfold inline_styles_entries, inline_styles.
  induction deps as [|dep deps [IHnd IHmap]] using rev_ind.
  - split; [apply NoDup_nil_2|done].
  - rewrite !foldl_snoc. unfold inline_style_entry_step at 1 3.
    unfold inline_style_step at 1. rewrite <- IHmap.
    destruct (is_style searchParams dep); [|done].
    destruct (ssrLoadModule (Vite.url dep)) as [m|e]; [|done].
    split; [by apply assign_property_NoDup|apply assign_property_to_map].
Qed.

(** With two styles that load, the record lists them as they were
    collected. *)
Lemma inline_styles_entries_follow_collection :
  inline_styles_entries load_any query_example [svelte_style_dep; css_dep]
  = [("/src/Nav.svelte?svelte&type=style&lang.css",
      JSString "/* /src/Nav.svelte?svelte&type=style&lang.css */");
     ("/src/app.css", JSString "/* /src/app.css */")]
  ∧ inline_styles_entries load_any query_example [css_dep; svelte_style_dep]
    = [("/src/app.css", JSString "/* /src/app.css */");
       ("/src/Nav.svelte?svelte&type=style&lang.css",
        JSString "/* /src/Nav.svelte?svelte&type=style&lang.css */")].
Proof. split; vm_compute; reflexivity. Qed.



(** ** The middleware stack *)

Lemma remove_static_from_spec (first : Middleware) (mid post : list Middleware) :
  remove_static_from (List.length mid) (first :: mid ++ post)
  = first :: (List.filter
                (fun m => negb (bool_decide (handle_name m ∈ static_middlewares)))
                mid ++ post)%list.
Proof.
  revert post. induction mid as [|x mid IH] using rev_ind; intros post.
  - reflexivity.
  - rewrite length_app. simpl List.length.
    replace (List.length mid + 1)%nat with (S (List.length mid)) by lia.
    simpl remove_static_from.
    assert (Hx : ((mid ++ [x]) ++ post)%list !! List.length mid = Some x).
    { rewrite <- app_assoc. simpl. by apply list_lookup_middle. }
    rewrite Hx. rewrite List.filter_app. simpl.
    destruct (bool_decide (handle_name x ∈ static_middlewares)); simpl.
    + assert (delete (List.length mid) ((mid ++ [x]) ++ post)%list
              = (mid ++ post)%list) as ->.
      { rewrite <- app_assoc. simpl. by rewrite delete_middle. }
      rewrite IH. by rewrite app_nil_r.
    + rewrite <- !app_assoc. simpl. by rewrite IH.
Qed.

(** X9. [remove_static_middlewares] never removes the first layer of the
    stack, whatever it is; from the layers after it, it removes exactly the
    ones named [viteServePublicMiddleware] or [viteServeStaticMiddleware]
    and keeps the others in their order. *)
Theorem remove_static_middlewares_spares_the_first (stack : list Middleware) :
  remove_static_middlewares stack
  = match stack with
    | [] => []
    | first :: others =>
        first :: List.filter
                   (fun m => negb (bool_decide (handle_name m ∈ static_middlewares)))
                   others
    end.
Proof.
  destruct stack as [|first others]; [reflexivity|].
  unfold remove_static_middlewares. simpl List.length.
  replace (S (List.length others) - 1)%nat with (List.length others) by lia.
  pose proof (remove_static_from_spec first others []) as H.
  rewrite !app_nil_r in H. exact H.
Qed.

(** ** The two middlewares, over all their paths *)

Section MiddlewareForms.
Variable config : Config.
Variable fs : FileSystem.
Variable SVELTE_KIT_ASSETS : string.
Variable decode_pathname : string -> Completion string.
Variable encodeURI : string -> string.
Variable path_dirname : string -> string.
Variable path_basename : string -> string.
Variable resolve_path : string -> string.
Variable error_stack : string -> option string.
Variable ssrRewriteStacktrace : string -> string.
Variable ssrLoadModule : string -> Completion (gmap string JSValue).
Variable resolve_entry : string -> option string.
Variable loadEnv : string -> string -> string -> gmap string string.
Variable cwd : string.
Variable runtime_base : string.
Variable root_url : string.
Variable KitRequest : Type.
Variable getRequest : string -> IncomingMessage -> KitRequest + (option Z * option string).
Variable load_template : Completion string.
Variable respond : KitRequest -> RenderOptions -> Completion Rendered.
Variable serve_static_hit : IncomingMessage -> bool.

Local Abbreviation serve_assets :=
  (asset_middleware config fs SVELTE_KIT_ASSETS decode_pathname encodeURI
     path_dirname path_basename error_stack ssrRewriteStacktrace).
Local Abbreviation dispatch :=
  (request_middleware config fs SVELTE_KIT_ASSETS decode_pathname resolve_path
     error_stack ssrRewriteStacktrace ssrLoadModule resolve_entry loadEnv cwd
     runtime_base root_url KitRequest getRequest load_template respond
     serve_static_hit).
Local Abbreviation catch := (try_catch error_stack ssrRewriteStacktrace).
Local Abbreviation the_env :=
  (get_env loadEnv cwd (mode config) (publicPrefix config)).
Local Abbreviation the_assets := (assets config SVELTE_KIT_ASSETS).

Lemma asset_middleware_forms fuel req trace :
  serve_assets fuel req = Some trace ->
  trace = [Next]
  ∨ (∃ u, trace = [AssetServer u])
  ∨ (∃ b, trace = [End 500 b]).
Proof.
  unfold asset_middleware.
  destruct (decode_pathname _) as [decoded|e].
  2:{ intros [= <-]. right; right. by eexists. }
  destruct (startsWith decoded _); [|by intros [= <-]; left].
  destruct (_ && _); [|by intros [= <-]; left].
  destruct (has_correct_case _ _ _ _ _ _) as [[[]|e]|]; [| | |done].
  - intros [= <-]. right; left. by eexists.
  - intros [= <-]. by left.
  - intros [= <-]. right; right. by eexists.
Qed.

Lemma catch_lift {A} (c : Completion A) (k : A -> Handler unit) :
  catch (hbind (lift c) k)
  = match c with
    | Returned a => catch (k a)
    | Threw e => [End 500 (fix_stack_trace error_stack ssrRewriteStacktrace e)]
    end.
Proof. destruct c as [a|e]; [by rewrite hbind_returned|done]. Qed.

Lemma catch_emit (e : Effect) (k : unit -> Handler unit) :
  catch (hbind (emit e) k) = e :: catch (k tt).
Proof. unfold hbind, emit, try_catch. by destruct (k tt) as [t []]. Qed.

(** Every way a request can go through the dispatcher. *)
Lemma request_middleware_forms req :
  let inject := [SetPrivateEnv (private the_env); SetPublicEnv (public the_env)] in
  let set_paths := SetPaths (paths_base config) the_assets in
  dispatch req = [ServeStatic]
  ∨ (∃ m, dispatch req = [End 404 (Some m)])
  ∨ (∃ b, dispatch req = [End 500 b])
  ∨ (∃ b, dispatch req = (inject ++ [End 500 b])%list)
  ∨ (∃ s b, dispatch req = (inject ++ [set_paths; End s b])%list)
  ∨ (∃ s b, s ≠ 404%Z
            ∧ dispatch req = (inject ++ [set_paths; SetResponse s b])%list)
  ∨ (dispatch req = (inject ++ [set_paths; ServeStatic])%list)
  ∨ (∃ b, dispatch req
          = (inject ++ [set_paths; ServeStatic; SetResponse 404 b])%list).
Proof.
  intros inject set_paths. subst inject set_paths.
  unfold request_middleware, request_handler. cbv zeta.
  rewrite catch_lift. destruct (decode_pathname _) as [decoded|e].
  2:{ right; right; left. by eexists. }
  destruct (_ && _).
  { left. unfold serve_static_handle. by rewrite catch_emit. }
  destruct (negb _).
  { right; left. unfold not_found. by eexists. }
  rewrite catch_lift. destruct (ssrLoadModule (runtime_base ++ "/env-private.js"));
    [|right; right; left; by eexists].
  rewrite catch_lift. destruct (ssrLoadModule (runtime_base ++ "/env-public.js"));
    [|right; right; left; by eexists].
  rewrite catch_emit. cbv beta. rewrite catch_emit. cbv beta.
  assert (Hhooks : ∃ c, (match resolve_entry (files_hooks config) with
                         | Some _ => lift (ssrLoadModule ("/" ++ files_hooks config))
                         | None => hret ∅
                         end) = lift c).
  { destruct (resolve_entry _); by eexists. }
  destruct Hhooks as [c ->]. rewrite catch_lift.
  destruct c as [user_hooks|e]; [|do 3 right; left; by eexists].
  rewrite check_legacy_hooks_passes, hbind_hret.
  rewrite catch_lift. destruct (ssrLoadModule root_url);
    [|do 3 right; left; by eexists].
  rewrite catch_lift. destruct (ssrLoadModule (runtime_base ++ "/paths.js"));
    [|do 3 right; left; by eexists].
  rewrite catch_emit. cbv beta.
  destruct (getRequest _ _) as [request|[err_status err_reason]].
  2:{ do 4 right; left. by eexists _, _. }
  rewrite catch_lift. destruct load_template;
    [|do 4 right; left; by eexists _, _].
  rewrite catch_lift. destruct (respond _ _) as [rendered|e];
    [|do 4 right; left; by eexists _, _].
  rewrite send_rendered_trace.
  destruct (Z.eqb_spec (status rendered) 404) as [Heq|Hne].
  - destruct (serve_static_hit req); simpl.
    + do 6 right; left. done.
    + do 7 right. rewrite Heq. by eexists.
  - do 5 right; left. by eexists _, _.
Qed.

End MiddlewareForms.

(** The walk of [has_correct_case] comes to an answer once it ends within
    the fuel. *)
Lemma has_correct_case_total (fs : FileSystem)
    (path_dirname path_basename : string -> string)
    (fuel : nat) (file assets_dir : string) (k : nat) :
  (k < fuel)%nat ->
  ancestor path_dirname k file = assets_dir
  ∨ ¬ listed fs path_dirname path_basename file k ->
  is_Some (has_correct_case fs path_dirname path_basename fuel file assets_dir).
Proof.
  revert file k. induction fuel as [|fuel IH]; intros file k Hk Hend; [lia|].
  simpl. destruct (String.eqb_spec file assets_dir) as [|Hne]; [by eexists|].
  destruct (readdirSync fs (path_dirname file)) as [names|e] eqn:Hdir; [|by eexists].
  case_bool_decide as Hin; [|by eexists].
  destruct k as [|k].
  - destruct Hend as [Hhere|Hnot]; [done|].
    destruct Hnot. by exists names.
  - apply (IH _ k); [lia|]. destruct Hend as [Hup|Hnot]; [by left|].
    right. intros (names' & Hdir' & Hin'). apply Hnot. by exists names'.
Qed.

Section MiddlewareInvariants.
Variable config : Config.
Variable fs : FileSystem.
Variable SVELTE_KIT_ASSETS : string.
Variable decode_pathname : string -> Completion string.
Variable encodeURI : string -> string.
Variable path_dirname : string -> string.
Variable path_basename : string -> string.
Variable resolve_path : string -> string.
Variable error_stack : string -> option string.
Variable ssrRewriteStacktrace : string -> string.
Variable ssrLoadModule : string -> Completion (gmap string JSValue).
Variable resolve_entry : string -> option string.
Variable loadEnv : string -> string -> string -> gmap string string.
Variable cwd : string.
Variable runtime_base : string.
Variable root_url : string.
Variable KitRequest : Type.
Variable getRequest : string -> IncomingMessage -> KitRequest + (option Z * option string).
Variable load_template : Completion string.
Variable respond : KitRequest -> RenderOptions -> Completion Rendered.
Variable serve_static_hit : IncomingMessage -> bool.

Local Abbreviation dispatch :=
  (request_middleware config fs SVELTE_KIT_ASSETS decode_pathname resolve_path
     error_stack ssrRewriteStacktrace ssrLoadModule resolve_entry loadEnv cwd
     runtime_base root_url KitRequest getRequest load_template respond
     serve_static_hit).
Local Abbreviation forms :=
  (request_middleware_forms config fs SVELTE_KIT_ASSETS decode_pathname
     resolve_path error_stack ssrRewriteStacktrace ssrLoadModule resolve_entry
     loadEnv cwd runtime_base root_url KitRequest getRequest load_template
     respond serve_static_hit).

(** X10. The asset middleware answers every request, and does exactly one
    thing: it hands the request to the asset server, or calls [next()], or
    ends the response with status 500.  Only a request for an existing
    file under the assets path sets off the walk of [has_correct_case];
    for such a request the walk has to come to an end within the fuel,
    by reaching the assets directory or a component that its directory
    does not list (which includes a directory that cannot be read). *)
Theorem asset_middleware_does_one_thing
    (fuel : nat) (req : IncomingMessage) :
  (∀ decoded,
     decode_pathname (origin config req ++ url req) = Returned decoded ->
     startsWith decoded (assets config SVELTE_KIT_ASSETS) = true ->
     let file :=
       files_assets config
       ++ slice_from (String.length (assets config SVELTE_KIT_ASSETS)) decoded in
     existsSync fs file = true -> isDirectory fs file = false ->
     ∃ k, (k < fuel)%nat
          ∧ (ancestor path_dirname k file = files_assets config
             ∨ ¬ listed fs path_dirname path_basename file k)) ->
  ∃ e,
    asset_middleware config fs SVELTE_KIT_ASSETS decode_pathname encodeURI
      path_dirname path_basename error_stack ssrRewriteStacktrace fuel req
    = Some [e]
    ∧ match e with
      | Next | AssetServer _ => True
      | End statusCode _ => statusCode = 500%Z
      | _ => False
      end.
Proof.
  intros Hends.
  assert (Hrun : is_Some
            (asset_middleware config fs SVELTE_KIT_ASSETS decode_pathname encodeURI
               path_dirname path_basename error_stack ssrRewriteStacktrace fuel req)).
  { unfold asset_middleware.
    destruct (decode_pathname _) as [decoded|e] eqn:Hdecode; [|by eexists].
    destruct (startsWith decoded _) eqn:Hunder; [|by eexists].
    destruct (existsSync fs _) eqn:Hexists; simpl; [|by eexists].
    destruct (isDirectory fs _) eqn:Hdir; simpl; [by eexists|].
    destruct (Hends decoded eq_refl Hunder Hexists Hdir) as (k & Hk & Hend).
    destruct (has_correct_case_total fs path_dirname path_basename fuel _
                (files_assets config) k Hk Hend) as [correct ->].
    by eexists. }
  destruct Hrun as [trace Hrun]. rewrite Hrun.
  destruct (asset_middleware_forms _ _ _ _ _ _ _ _ _ _ _ _ Hrun)
    as [->|[[u ->]|[b ->]]]; by eexists.
Qed.



(** X13. What the dispatcher pushes as public environment holds only
    loaded variables whose name starts with the public prefix, and what it
    pushes as private environment holds only loaded variables whose name
    does not. *)
Theorem pushed_environment_respects_prefix
    (req : IncomingMessage) (env : gmap string string) :
  let loaded := loadEnv (mode config) cwd "" in
  (SetPublicEnv env ∈ dispatch req ->
   ∀ k v, env !! k = Some v ->
          loaded !! k = Some v ∧ startsWith k (publicPrefix config) = true)
  ∧ (SetPrivateEnv env ∈ dispatch req ->
     ∀ k v, env !! k = Some v ->
            loaded !! k = Some v ∧ startsWith k (publicPrefix config) = false).
Proof.
  intros loaded.
  assert (Hpub : SetPublicEnv env ∈ dispatch req ->
                 env = public (get_env loadEnv cwd (mode config) (publicPrefix config))).
  { destruct (forms req)
      as [H|[[m H]|[[b H]|[[b H]|[(s & b & H)|[(s & b & _ & H)|[H|[b H]]]]]]]];
      rewrite H; intros Hin;
      repeat (apply elem_of_cons in Hin as [Hin|Hin];
              [first [discriminate Hin | by injection Hin]|]);
      by apply elem_of_nil in Hin. }
  assert (Hpriv : SetPrivateEnv env ∈ dispatch req ->
                  env = private (get_env loadEnv cwd (mode config) (publicPrefix config))).
  { destruct (forms req)
      as [H|[[m H]|[[b H]|[[b H]|[(s & b & H)|[(s & b & _ & H)|[H|[b H]]]]]]]];
      rewrite H; intros Hin;
      repeat (apply elem_of_cons in Hin as [Hin|Hin];
              [first [discriminate Hin | by injection Hin]|]);
      by apply elem_of_nil in Hin. }
  split.
  - intros Hin k v Hk. rewrite (Hpub Hin) in Hk. unfold get_env in Hk. simpl in Hk.
    by apply filtered_entries_lookup in Hk.
  - intros Hin k v Hk. rewrite (Hpriv Hin) in Hk. unfold get_env in Hk. simpl in Hk.
    apply filtered_entries_lookup in Hk as [Hk Hpre]. split; [done|].
    by apply negb_true_iff in Hpre.
Qed.

End MiddlewareInvariants.

Lemma asset_middleware_does_one_thing_witness :
  ∃ e, example_assets 3 (request_for "/x.png") = Some [e]
       ∧ match e with
         | Next | AssetServer _ => True
         | End statusCode _ => statusCode = 500%Z
         | _ => False
         end.
Proof.
  apply (asset_middleware_does_one_thing example_config example_fs
           "/_svelte_kit_assets" pathname_of (fun u => u) dirname_of basename_of
           (fun e => Some e) (fun st => st) 3 (request_for "/x.png")).
  intros decoded Hdecoded _ file _ _. subst file. injection Hdecoded as <-.
  exists 0%nat. split; [lia|]. right.
  intros (names & Hdir & Hin). vm_compute in Hdir. injection Hdir as <-.
  vm_compute in Hin. apply list_elem_of_singleton in Hin. discriminate Hin.
Defined.


Lemma pushed_environment_respects_prefix_witness :
  example_env "development" "/app" "" !! "PUBLIC_API" = Some "https://api.example"
  ∧ startsWith "PUBLIC_API" "PUBLIC_" = true.
Proof.
  apply (proj1 (pushed_environment_respects_prefix example_config example_fs
                  "/_svelte_kit_assets" pathname_of (fun f => "/app/" ++ f)
                  (fun e => Some e) (fun st => st) example_modules
                  (fun _ => Some "src/hooks.js") example_env "/app"
                  "/@fs/app/node_modules/@sveltejs/kit/src/runtime"
                  "/.svelte-kit/generated/root.svelte"
                  string (fun _ req => inl (url req)) (Returned "%sveltekit.body%")
                  example_respond (fun _ => false) (request_for "/about")
                  {[ "PUBLIC_API" := "https://api.example" ]})).
  - vm_compute. apply list_elem_of_In. simpl. right. left. reflexivity.
  - reflexivity.
Defined.

(** ** Entry points *)

Lemma has_dot_app (a b : string) : has_dot (a ++ b) = has_dot a || has_dot b.
Proof.
  induction a as [|c a IH]; [done|].
  change (has_dot (String c a ++ b)) with (Ascii.eqb c "." || has_dot (a ++ b)).
  simpl. by rewrite IH, orb_assoc.
Qed.

Lemma strip_extension_app (base ext : string) :
  ext ≠ "" -> has_dot ext = false ->
  strip_extension (base ++ "." ++ ext) = base.
Proof.
  intros Hne Hdot. induction base as [|c base IH].
  - change (strip_extension ("" ++ "." ++ ext)) with (strip_extension (String "." ext)).
    simpl. rewrite Hdot. destruct (String.eqb_spec ext ""); done.
  - change (strip_extension (String c base ++ "." ++ ext))
      with (strip_extension (String c (base ++ "." ++ ext))).
    simpl. rewrite IH.
    destruct (Ascii.eqb c "."); [|done].
    rewrite has_dot_app. simpl. by rewrite orb_true_r.
Qed.

Lemma strip_extension_cases (s : string) :
  strip_extension s = s
  ∨ ∃ ext, ext ≠ "" ∧ has_dot ext = false ∧ s = strip_extension s ++ "." ++ ext.
Proof.
  induction s as [|c s IH]; [by left|]. simpl.
  destruct (Ascii.eqb_spec c ".") as [->|Hc].
  - destruct (has_dot s) eqn:Hdot.
    + destruct IH as [->|(ext & Hne & Hext & Hs)]; [by left|].
      right. exists ext. split; [done|]. split; [done|].
      change (String "." s = String "." (strip_extension s ++ "." ++ ext)).
      by f_equal.
    + destruct (String.eqb_spec s "") as [->|Hs]; [by left|].
      right. by exists s.
  - destruct IH as [->|(ext & Hne & Hext & Hs)]; [by left|].
    right. exists ext. split; [done|]. split; [done|].
    change (String c s = String c (strip_extension s ++ "." ++ ext)).
    by f_equal.
Qed.

(** X14. The comparison [file.replace(/\.[^.]+$/, '') === base] that
    [resolve_entry] makes holds exactly when [file] is [base] followed by
    a dot and a non-empty extension without dots, or when [file] is [base]
    itself and has no such extension to lose. *)
Theorem stem_comparison (file base : string) :
  strip_extension file = base
  <-> (∃ ext, ext ≠ "" ∧ has_dot ext = false ∧ file = base ++ "." ++ ext)
      ∨ (file = base
         ∧ ∀ stem ext, file = stem ++ "." ++ ext -> ext = "" ∨ has_dot ext = true).
Proof.
  split.
  - intros <-. destruct (strip_extension_cases file) as [Hsame|(ext & Hne & Hdot & Hs)].
    + right. split; [done|]. intros stem ext Hfile.
      destruct (String.eqb_spec ext "") as [|Hne]; [by left|].
      destruct (has_dot ext) eqn:Hdot; [by right|].
      exfalso. rewrite Hfile, strip_extension_app in Hsame by done.
      apply (f_equal String.length) in Hsame.
      rewrite !string_length_app in Hsame. simpl in Hsame. lia.
    + left. by exists ext.
  - intros [(ext & Hne & Hdot & ->)|[-> Hnone]].
    + by apply strip_extension_app.
    + destruct (strip_extension_cases base) as [Hsame|(ext & Hne & Hdot & Hs)];
        [done|].
      destruct (Hnone _ _ Hs) as [|Hd]; [done|congruence].
Qed.

Section ResolveEntryFacts.
Variable fs : FileSystem.
Variable path_join : string -> string -> string.
Variable path_dirname : string -> string.
Variable path_basename : string -> string.

Local Abbreviation resolve := (resolve_entry fs path_join path_dirname path_basename).
Local Abbreviation descend := (descend_index path_join).

Lemma resolve_entry_sound fuel entry f :
  resolve fuel entry = Some (Returned (Some f)) ->
  ∃ k,
    (∀ j, (j < k)%nat ->
       existsSync fs (descend j entry) = true
       ∧ isDirectory fs (descend j entry) = true)
    ∧ let e := descend k entry in
      (existsSync fs e = true ∧ isDirectory fs e = false ∧ f = e)
      ∨ (existsSync fs e = false
         ∧ existsSync fs (path_dirname e) = true
         ∧ ∃ files found,
             readdirSync fs (path_dirname e) = Returned files
             ∧ found ∈ files
             ∧ strip_extension found = path_basename e
             ∧ f = path_join (path_dirname e) found).
Proof.
  revert entry. induction fuel as [|fuel IH]; intros entry; simpl; [done|].
  destruct (existsSync fs entry) eqn:Hexists.
  - destruct (isDirectory fs entry) eqn:Hdir.
    + intros (k & Hdirs & Hend)%IH. exists (S k). split; [|done].
      intros [|j] Hj; [done|]. apply Hdirs. lia.
    + intros [= <-]. exists 0%nat. split; [intros j Hj; lia|]. by left.
  - destruct (existsSync fs (path_dirname entry)) eqn:Hparent; [|done].
    destruct (readdirSync fs (path_dirname entry)) as [files|e] eqn:Hfiles; [|done].
    destruct (find_by_stem _ files) as [found|] eqn:Hfound; [|done].
    destruct (String.eqb found ""); [done|].
    intros [= <-]. exists 0%nat. split; [intros j Hj; lia|]. right.
    split; [done|]. split; [done|]. exists files, found.
    apply List.find_some in Hfound as [Hin Hstem].
    split; [done|]. split; [by apply list_elem_of_In|].
    split; [by apply String.eqb_eq|done].
Qed.

End ResolveEntryFacts.

(** X15. When [resolve_entry] returns a file name, it has gone down from
    the entry through directories ([entry], [entry/index], ...) to a path
    that either exists and is no directory, and is what it returns, or
    does not exist while its directory does and lists a file whose name
    without extension is the last component of the path; then it returns
    that file, joined to the directory. *)
Theorem resolve_entry_returns_a_listed_file
    (fs : FileSystem) (path_join : string -> string -> string)
    (path_dirname path_basename : string -> string)
    (fuel : nat) (entry f : string) :
  resolve_entry fs path_join path_dirname path_basename fuel entry
  = Some (Returned (Some f)) ->
  ∃ k,
    (∀ j, (j < k)%nat ->
       existsSync fs (descend_index path_join j entry) = true
       ∧ isDirectory fs (descend_index path_join j entry) = true)
    ∧ let e := descend_index path_join k entry in
      (existsSync fs e = true ∧ isDirectory fs e = false ∧ f = e)
      ∨ (existsSync fs e = false
         ∧ existsSync fs (path_dirname e) = true
         ∧ ∃ files found,
             readdirSync fs (path_dirname e) = Returned files
             ∧ found ∈ files
             ∧ strip_extension found = path_basename e
             ∧ f = path_join (path_dirname e) found).
Proof. apply resolve_entry_sound. Qed.

Lemma resolve_entry_returns_a_listed_file_witness :
  resolve_entry project_fs join_with_slash dirname_of basename_of 3 "/app/src/lib"
  = Some (Returned (Some "/app/src/lib/index.js"))
  ∧ ∃ k,
      (∀ j, (j < k)%nat ->
         existsSync project_fs (descend_index join_with_slash j "/app/src/lib") = true
         ∧ isDirectory project_fs (descend_index join_with_slash j "/app/src/lib") = true)
      ∧ let e := descend_index join_with_slash k "/app/src/lib" in
        (existsSync project_fs e = true ∧ isDirectory project_fs e = false
         ∧ "/app/src/lib/index.js" = e)
        ∨ (existsSync project_fs e = false
           ∧ existsSync project_fs (dirname_of e) = true
           ∧ ∃ files found,
               readdirSync project_fs (dirname_of e) = Returned files
               ∧ found ∈ files
               ∧ strip_extension found = basename_of e
               ∧ "/app/src/lib/index.js" = join_with_slash (dirname_of e) found).
Proof.
  assert (Hrun : resolve_entry project_fs join_with_slash dirname_of basename_of
                   3 "/app/src/lib"
                 = Some (Returned (Some "/app/src/lib/index.js")))
    by (vm_compute; reflexivity).
  split; [exact Hrun|].
  exact (resolve_entry_returns_a_listed_file project_fs join_with_slash
           dirname_of basename_of 3 "/app/src/lib" "/app/src/lib/index.js" Hrun).
Defined.

Example resolve_entry_hooks :
  resolve_entry project_fs join_with_slash dirname_of basename_of 1 "/app/src/hooks"
  = Some (Returned (Some "/app/src/hooks.ts")).
Proof. vm_compute. reflexivity. Qed.

(** ** Aliases *)

Lemma foldl_insert_map (g : string -> string) (l : list (string * string))
    (o : gmap string string) :
  foldl (fun a kv => <[ kv.1 := g kv.2 ]> a) o l
  = foldl (fun a kv => <[ kv.1 := kv.2 ]> a) o (prod_map id g <$> l).
Proof.
  revert o. induction l as [|[k v] l IH]; intros o; [done|].
  rewrite fmap_cons. simpl. apply IH.
Qed.


(** ** The manifest *)

(** X17. A node loader stands guard at the import boundary.  On a finite
    live graph, with enough fuel: when the loader returns a node, its
    module was loaded, its module node was found and no forbidden module
    is reachable from it through analysed modules; when the module loads
    and its node is found, the loader throws exactly when a forbidden
    module is reachable. *)
Theorem node_loader_guards_the_boundary
    (path_join path_relative : string -> string -> string) (cwd : string)
    (normalizePath extname : string -> string)
    (deref : Vite.ref -> option Vite.ModuleNode)
    (path_posix_resolve : string -> string)
    (ssrLoadModule : string -> Completion (gmap string JSValue))
    (getModuleByUrl : string -> option Vite.ModuleNode)
    (illegal_imports : gset string)
    (extensions moduleExtensions : list string) (out_dir : string)
    (nodes : list Vite.ModuleNode) (fuel : nat) (id : string) (index : nat) :
  vite_graph normalizePath deref nodes ->
  (∀ u g, getModuleByUrl u = Some g -> g ∈ nodes) ->
  (List.length nodes < fuel)%nat ->
  let url := component_url path_posix_resolve id in
  let loaded :=
    load_node path_join path_relative cwd normalizePath extname deref
      path_posix_resolve ssrLoadModule getModuleByUrl illegal_imports
      extensions moduleExtensions out_dir fuel id index in
  let reachable g :=
    vite_reaches_avoiding normalizePath extname deref illegal_imports
      (get_module_types (extensions ++ moduleExtensions)) ∅ g in
  (∀ n, loaded = Some (Returned n) ->
        ssrLoadModule url = Returned (node_module n)
        ∧ getModuleByUrl url = Some (node_graph n)
        ∧ node_index n = index
        ∧ ¬ reachable (node_graph n))
  ∧ (∀ module g,
       ssrLoadModule url = Returned module -> getModuleByUrl url = Some g ->
       ((∃ message, loaded = Some (Threw message)) <-> reachable g)
       ∧ ((∃ n, loaded = Some (Returned n)) <-> ¬ reachable g)).
Proof.
  intros Hgraph Hnodes Hfuel url loaded reachable. subst loaded.
  unfold load_node. fold url. split.
  - intros n. destruct (ssrLoadModule url) as [module|e]; [|done].
    destruct (getModuleByUrl url) as [g|] eqn:Hg; [|done].
    unfold prevent_illegal_vite_imports.
    destruct (vfind_decides normalizePath extname deref illegal_imports
                (get_module_types (extensions ++ moduleExtensions)) nodes Hgraph
                fuel g (Hnodes _ _ Hg) Hfuel)
      as [(chain & s & -> & _)|[-> Hnone]]; [done|].
    by intros [= <-].
  - intros module g Hm Hg. rewrite Hm, Hg. unfold prevent_illegal_vite_imports.
    destruct (vfind_decides normalizePath extname deref illegal_imports
                (get_module_types (extensions ++ moduleExtensions)) nodes Hgraph
                fuel g (Hnodes _ _ Hg) Hfuel)
      as [(chain & s & -> & Hchain%vchain_avoiding)|[-> Hnone]].
    + split; split; try done.
      * intros _. by eexists.
      * by intros [n [=]].
    + split; split; try done.
      * by intros [message [=]].
      * intros _. by eexists.
Qed.

Lemma live_graph_is_a_graph : vite_graph normalized live_graph [page_node; secret_node].
Proof. apply (bool_decide_unpack _). vm_compute. exact I. Qed.

Lemma node_loader_guards_the_boundary_witness :
  ∃ message,
    load_node join_with_slash relative_as_is "/app" normalized extname_of
      live_graph (fun p => p) (fun _ => Returned ∅)
      (fun u => if String.eqb u "/src/page.js" then Some page_node else None)
      {[ "/src/secret.js" ]} [".svelte"] [] "/app/.svelte-kit" 3 "src/page.js" 0
    = Some (Threw message).
Proof.
  destruct (node_loader_guards_the_boundary join_with_slash relative_as_is "/app"
              normalized extname_of live_graph (fun p => p) (fun _ => Returned ∅)
              (fun u => if String.eqb u "/src/page.js" then Some page_node else None)
              {[ "/src/secret.js" ]} [".svelte"] [] "/app/.svelte-kit"
              [page_node; secret_node] 3 "src/page.js" 0)
    as [_ Hthrows].
  - exact live_graph_is_a_graph.
  - intros u g. destruct (String.eqb u "/src/page.js"); [|done].
    intros [= <-]. apply (bool_decide_unpack _). vm_compute. exact I.
  - simpl. lia.
  - destruct (Hthrows ∅ page_node eq_refl eq_refl) as [Hiff _].
    apply Hiff.
    apply (vite_avoid_step _ _ _ _ _ _ page_node "/src/page.js" secret_node).
    + reflexivity.
    + apply (bool_decide_unpack _). vm_compute. exact I.
    + set_solver.
    + exists 1%nat. split; [set_solver|reflexivity].
    + apply (vite_avoid_here _ _ _ _ _ _ secret_node "/src/secret.js").
      * reflexivity.
      * apply (bool_decide_unpack _). vm_compute. exact I.
      * set_solver.
      * done.
      * set_solver.
Defined.

Section MatcherFacts.
Variable cwd : string.
Variable path_resolve : string -> string -> string.
Variable ssrLoadModule : string -> Completion (gmap string JSValue).

Local Abbreviation matchers_from := (load_matchers cwd path_resolve ssrLoadModule).

Lemma load_matchers_returned entries start result :
  NoDup entries.*1 ->
  matchers_from entries start = Returned result ->
  (∀ key file, (key, file) ∈ entries ->
     ∃ module,
       ssrLoadModule (path_resolve cwd file) = Returned module
       ∧ truthy (get module "match") = true
       ∧ result !! key = Some (get module "match"))
  ∧ (∀ key, key ∉ entries.*1 -> result !! key = start !! key).
Proof.
  revert start. induction entries as [|[key file] rest IH]; intros start; simpl.
  - intros _ [= <-]. split; [by intros key file ?%elem_of_nil|done].
  - intros [Hkey Hrest]%NoDup_cons.
    destruct (ssrLoadModule (path_resolve cwd file)) as [module|e] eqn:Hload; [|done].
    destruct (truthy (get module "match")) eqn:Hmatch; [|done].
    intros Hrun. destruct (IH _ Hrest Hrun) as [Hall Hother]. split.
    + intros key' file' [[= -> ->]|Hin]%elem_of_cons; [|by apply Hall].
      exists module. split; [done|]. split; [done|].
      rewrite (Hother key Hkey). apply lookup_insert_eq.
    + intros key' [Hne Hout]%not_elem_of_cons.
      rewrite (Hother key' Hout). by apply lookup_insert_ne.
Qed.

Lemma load_matchers_thrown before key file after module start :
  (∀ k f, (k, f) ∈ before ->
     ∃ m, ssrLoadModule (path_resolve cwd f) = Returned m
          ∧ truthy (get m "match") = true) ->
  ssrLoadModule (path_resolve cwd file) = Returned module ->
  truthy (get module "match") = false ->
  matchers_from (before ++ (key, file) :: after) start
  = Threw (file ++ " does not export a `match` function").
Proof.
  revert start. induction before as [|[k f] before IH]; intros start Hbefore Hload Hno.
  - simpl. by rewrite Hload, Hno.
  - simpl. destruct (Hbefore k f) as (m & -> & ->); [by left|].
    apply IH; [|done|done]. intros k' f' Hin. apply (Hbefore k' f'). by right.
Qed.

End MatcherFacts.

(** X18. [matchers] returns a record only when every matcher module loads
    and exports a truthy [match]; the record then binds every configured
    name to that export and nothing else.  When the modules before it
    are fine and a module loads without a [match] export, it throws
    "<file> does not export a `match` function" for that file. *)
Theorem matchers_need_a_match_export
    (cwd : string) (path_resolve : string -> string -> string)
    (ssrLoadModule : string -> Completion (gmap string JSValue))
    (entries : list (string * string)) :
  NoDup entries.*1 ->
  (∀ result,
     load_matchers cwd path_resolve ssrLoadModule entries ∅ = Returned result ->
     dom result = list_to_set entries.*1
     ∧ ∀ key file, (key, file) ∈ entries ->
         ∃ module,
           ssrLoadModule (path_resolve cwd file) = Returned module
           ∧ truthy (get module "match") = true
           ∧ result !! key = Some (get module "match"))
  ∧ (∀ before key file after module,
       entries = (before ++ (key, file) :: after)%list ->
       (∀ k f, (k, f) ∈ before ->
          ∃ m, ssrLoadModule (path_resolve cwd f) = Returned m
               ∧ truthy (get m "match") = true) ->
       ssrLoadModule (path_resolve cwd file) = Returned module ->
       truthy (get module "match") = false ->
       load_matchers cwd path_resolve ssrLoadModule entries ∅
       = Threw (file ++ " does not export a `match` function")).
Proof.
  intros Hnd. split.
  - intros result Hrun.
    destruct (load_matchers_returned _ _ _ _ _ _ Hnd Hrun) as [Hall Hother].
    split; [|done]. apply set_eq. intros key.
    rewrite elem_of_dom, elem_of_list_to_set. split.
    + intros [v Hv]. destruct (decide (key ∈ entries.*1)) as [|Hout]; [done|].
      rewrite (Hother key Hout), lookup_empty in Hv. done.
    + intros ([k file] & -> & Hin)%list_elem_of_fmap.
      destruct (Hall k file Hin) as (module & _ & _ & Hk). simpl.
      rewrite Hk. by eexists.
  - intros before key file after module -> Hbefore Hload Hno.
    by eapply load_matchers_thrown.
Qed.

Lemma matchers_need_a_match_export_witness :
  load_matchers "/app" (fun _ f => f)
    (fun u => if String.eqb u "src/params/int.js"
              then Returned {[ "match" := JSFunction "int" ]}
              else Returned ∅)
    [("int", "src/params/int.js"); ("slug", "src/params/slug.js")] ∅
  = Threw ("src/params/slug.js" ++ " does not export a `match` function").
Proof.
  destruct (matchers_need_a_match_export "/app" (fun _ f => f)
              (fun u => if String.eqb u "src/params/int.js"
                        then Returned {[ "match" := JSFunction "int" ]}
                        else Returned ∅)
              [("int", "src/params/int.js"); ("slug", "src/params/slug.js")])
    as [_ Hthrows].
  - apply (bool_decide_unpack _). vm_compute. exact I.
  - apply (Hthrows [("int", "src/params/int.js")] "slug" "src/params/slug.js" [] ∅).
    + reflexivity.
    + intros k f Hin. apply list_elem_of_singleton in Hin. injection Hin as -> ->.
      exists {[ "match" := JSFunction "int" ]}. split; reflexivity.
    + reflexivity.
    + reflexivity.
Defined.

(** ** Merging configuration objects *)

Lemma Json_nested_ind (P : Json -> Prop) :
  P JNull ->
  (∀ text, P (JAtom text)) ->
  (∀ items, P (JArr items)) ->
  (∀ fields, Forall (fun kv => P kv.2) fields -> P (JObj fields)) ->
  ∀ v, P v.
Proof.
  intros Hnull Hatom Harr Hobj.
  refine (fix IH (v : Json) : P v :=
            match v with
            | JNull => Hnull
            | JAtom text => Hatom text
            | JArr items => Harr items
            | JObj fields =>
                Hobj fields
                  ((fix go (fs : list (string * Json))
                      : Forall (fun kv => P kv.2) fs :=
                      match fs with
                      | [] => List.Forall_nil _
                      | (k, x) :: rest =>
                          List.Forall_cons _ (k, x) rest (IH x) (go rest)
                      end) fields)
            end).
Qed.

Lemma merge_prop_plain old fields :
  has_prop "constructor" fields = false ->
  merge_prop old (JObj fields)
  = match merge_target old with
    | Threw e => Threw e
    | Returned target =>
        match merge_into target fields with
        | Threw e => Threw e
        | Returned merged => Returned (JObj merged)
        end
    end.
Proof.
  intros Hplain. simpl. rewrite Hplain. clear Hplain.
  destruct (merge_target old) as [target|e]; [|done].
  revert target. induction fields as [|[prop v] rest IH]; intros target; [done|].
  simpl. destruct (merge_prop (get_prop prop target) v); [apply IH|done].
Qed.

Lemma merge_target_error old e : merge_target old = Threw e -> e = null_constructor.
Proof.
  unfold merge_target, is_plain_object.
  destruct old as [[| |items|fields]|]; try done.
  - by intros [= <-].
  - by destruct (negb _).
Qed.

Lemma merge_into_error_from a b :
  Forall (fun kv => ∀ old e, merge_prop old kv.2 = Threw e -> e = null_constructor) b ->
  ∀ e, merge_into a b = Threw e -> e = null_constructor.
Proof.
  intros Hall. revert a. induction Hall as [|[prop v] rest Hv _ IH]; intros a e; [done|].
  simpl. destruct (merge_prop (get_prop prop a) v) as [v'|e'] eqn:Hm.
  - apply IH.
  - intros [= <-]. by eapply Hv.
Qed.

Lemma merge_prop_error v :
  ∀ old e, merge_prop old v = Threw e -> e = null_constructor.
Proof.
  induction v as [|text|items|fields IH] using Json_nested_ind; intros old e.
  - by intros [= <-].
  - done.
  - done.
  - destruct (has_prop "constructor" fields) eqn:Hplain.
    { simpl. by rewrite Hplain. }
    rewrite merge_prop_plain by done.
    destruct (merge_target old) as [target|e'] eqn:Htarget.
    + destruct (merge_into target fields) as [merged|e'] eqn:Hinto; [done|].
      intros [= <-]. by eapply merge_into_error_from.
    + intros [= <-]. by eapply merge_target_error.
Qed.

Lemma merge_into_error a b e : merge_into a b = Threw e -> e = null_constructor.
Proof.
  apply merge_into_error_from. apply Forall_forall. intros kv _.
  apply merge_prop_error.
Qed.

Lemma merge_into_throws a b prop v :
  (prop, v) ∈ b ->
  (∀ old, merge_prop old v = Threw null_constructor) ->
  merge_into a b = Threw null_constructor.
Proof.
  intros Hin Hv. revert a. induction b as [|[p x] rest IH]; intros a.
  - by apply elem_of_nil in Hin.
  - simpl. destruct (merge_prop (get_prop p a) x) as [x'|e] eqn:Hm.
    + apply elem_of_cons in Hin as [[= <- <-]|Hin]; [|by apply IH].
      rewrite Hv in Hm. done.
    + by rewrite (merge_prop_error _ _ _ Hm).
Qed.

Lemma merge_into_null a b : null_inside b -> merge_into a b = Threw null_constructor.
Proof.
  intros Hnull. revert a.
  induction Hnull as [prop fields Hin|prop sub fields Hin Hplain _ IH]; intros a.
  - by apply (merge_into_throws a fields prop JNull).
  - apply (merge_into_throws a fields prop (JObj sub)); [done|].
    intros old. rewrite merge_prop_plain by done.
    destruct (merge_target old) as [target|e] eqn:Htarget.
    + by rewrite IH.
    + by rewrite (merge_target_error _ _ Htarget).
Qed.

(** X19. [deep_merge] throws a [TypeError] as soon as one of the objects
    has a [null] property, at the top or in a plain object nested in it:
    [is_plain_object] reads the [constructor] of the [null]. *)
Theorem deep_merge_throws_on_null
    (objects : list (list (string * Json))) (o : list (string * Json)) :
  o ∈ objects -> null_inside o -> deep_merge objects = Threw null_constructor.
Proof.
  intros Hin Hnull. unfold deep_merge. generalize ([] : list (string * Json)).
  induction objects as [|x rest IH]; intros result.
  - by apply elem_of_nil in Hin.
  - simpl. destruct (merge_into result x) as [result'|e] eqn:Hm.
    + apply elem_of_cons in Hin as [<-|Hin]; [|by apply IH].
      by rewrite merge_into_null in Hm.
    + by rewrite (merge_into_error _ _ _ Hm).
Qed.

Lemma deep_merge_throws_on_null_witness :
  deep_merge [ [("mode", JAtom "development")];
               [("server", JObj [("https", JNull)])] ]
  = Threw null_constructor.
Proof.
  apply (deep_merge_throws_on_null _ [("server", JObj [("https", JNull)])]).
  - apply list_elem_of_In. simpl. right. left. reflexivity.
  - apply (null_deeper "server" [("https", JNull)]).
    + apply list_elem_of_singleton. reflexivity.
    + reflexivity.
    + apply (null_here "https"). apply list_elem_of_singleton. reflexivity.
Defined.

Lemma get_prop_None prop (o : list (string * Json)) :
  prop ∉ o.*1 -> get_prop prop o = None.
Proof.
  induction o as [|[k v] rest IH]; [done|]. rewrite fmap_cons. simpl.
  intros [Hne Hout]%not_elem_of_cons.
  destruct (String.eqb_spec k prop) as [->|_]; [done|by apply IH].
Qed.

Lemma get_prop_Some prop v (o : list (string * Json)) :
  NoDup o.*1 -> (prop, v) ∈ o -> get_prop prop o = Some v.
Proof.
  induction o as [|[k x] rest IH]; [by intros _ ?%elem_of_nil|].
  rewrite fmap_cons. simpl. intros [Hk Hnd]%NoDup_cons [[= -> ->]|Hin]%elem_of_cons.
  - by rewrite String.eqb_refl.
  - destruct (String.eqb_spec k prop) as [->|_]; [|by apply IH].
    destruct Hk. apply list_elem_of_fmap. by exists (prop, v).
Qed.

Lemma get_prop_in prop v (o : list (string * Json)) :
  get_prop prop o = Some v -> (prop, v) ∈ o.
Proof.
  induction o as [|[k x] rest IH]; [done|]. simpl.
  destruct (String.eqb_spec k prop) as [->|_].
  - intros [= ->]. by left.
  - intros H. right. by apply IH.
Qed.

Lemma set_prop_fresh prop v (o : list (string * Json)) :
  prop ∉ o.*1 -> set_prop prop v o = (o ++ [(prop, v)])%list.
Proof.
  induction o as [|[k x] rest IH]; [done|]. rewrite fmap_cons. simpl.
  intros [Hne Hout]%not_elem_of_cons.
  destruct (String.eqb_spec k prop) as [->|_]; [done|]. by rewrite IH.
Qed.

Lemma get_set_eq prop v (o : list (string * Json)) :
  get_prop prop (set_prop prop v o) = Some v.
Proof.
  induction o as [|[k x] rest IH]; simpl.
  - by rewrite String.eqb_refl.
  - destruct (String.eqb_spec k prop) as [->|Hne]; simpl.
    + by rewrite String.eqb_refl.
    + by destruct (String.eqb_spec k prop).
Qed.

Lemma get_set_ne prop other v (o : list (string * Json)) :
  prop ≠ other -> get_prop other (set_prop prop v o) = get_prop other o.
Proof.
  intros Hne. induction o as [|[k x] rest IH]; simpl.
  - by destruct (String.eqb_spec prop other).
  - destruct (String.eqb_spec k prop) as [->|Hk]; simpl.
    + by destruct (String.eqb_spec prop other).
    + by destruct (String.eqb_spec k other).
Qed.

Lemma merge_into_fresh (pre post : list (string * Json)) :
  NoDup ((pre ++ post)%list).*1 ->
  Forall (fun kv => merge_prop None kv.2 = Returned kv.2) post ->
  merge_into pre post = Returned (pre ++ post)%list.
Proof.
  intros Hnd Hall. revert pre Hnd.
  induction Hall as [|[prop v] rest Hv _ IH]; intros pre Hnd.
  - by rewrite app_nil_r.
  - simpl in *.
    assert (Hout : prop ∉ pre.*1).
    { rewrite fmap_app, fmap_cons in Hnd. apply NoDup_app in Hnd as (_ & Hdis & _).
      intros Hin. apply (Hdis _ Hin). by left. }
    rewrite (get_prop_None _ _ Hout), Hv, (set_prop_fresh _ _ _ Hout).
    rewrite IH; [by rewrite <- app_assoc|]. by rewrite <- app_assoc.
Qed.

Lemma clean_all (fields : list (string * Json)) :
  (fix all (fs : list (string * Json)) : bool :=
     match fs with
     | [] => true
     | (_, x) :: rest => clean x && all rest
     end) fields = forallb (fun kv => clean kv.2) fields.
Proof. induction fields as [|[k x] rest IH]; [done|]. simpl. by rewrite IH. Qed.

Lemma merge_prop_copies v : clean v = true -> merge_prop None v = Returned v.
Proof.
  induction v as [|text|items|fields IH] using Json_nested_ind; try done.
  intros Hclean. simpl in Hclean. rewrite clean_all in Hclean.
  destruct (has_prop "constructor" fields) eqn:Hplain.
  { simpl. by rewrite Hplain. }
  simpl in Hclean. apply andb_true_iff in Hclean as [Hnd%bool_decide_eq_true Hall].
  rewrite merge_prop_plain by done. simpl.
  rewrite (merge_into_fresh [] fields); [done|done|].
  apply Forall_forall. intros kv Hkv.
  rewrite Forall_forall in IH. apply (IH kv Hkv).
  rewrite forallb_forall in Hall. apply Hall. by apply list_elem_of_In.
Qed.

Lemma merge_into_copies o : clean_object o = true -> merge_into [] o = Returned o.
Proof.
  unfold clean_object. intros [Hnd%bool_decide_eq_true Hall]%andb_true_iff.
  apply (merge_into_fresh [] o); [done|].
  apply Forall_forall. intros kv Hkv. apply merge_prop_copies.
  rewrite forallb_forall in Hall. apply Hall. by apply list_elem_of_In.
Qed.



Lemma merge_into_lookup a b merged prop :
  NoDup b.*1 ->
  merge_into a b = Returned merged ->
  match get_prop prop b with
  | Some v =>
      ∃ v', merge_prop (get_prop prop a) v = Returned v'
            ∧ get_prop prop merged = Some v'
  | None => get_prop prop merged = get_prop prop a
  end.
Proof.
  revert a. induction b as [|[p v] rest IH]; intros a.
  - intros _ [= <-]. done.
  - rewrite fmap_cons. simpl. intros [Hp Hnd]%NoDup_cons.
    destruct (merge_prop (get_prop p a) v) as [v'|e] eqn:Hm; [|done].
    intros Hrest. specialize (IH _ Hnd Hrest).
    destruct (String.eqb_spec p prop) as [->|Hne].
    + rewrite (get_prop_None _ _ Hp), get_set_eq in IH. by exists v'.
    + by rewrite (get_set_ne _ _ _ _ Hne) in IH.
Qed.


